(** * rbdbutil: a shallow embedding of [rbdbutil.py]

    The tool reads a Rockbox tag-cache database (one index file and nine
    string-table files), matches its entries against a last.fm export and
    rewrites play counts in place.

    Conventions of the embedding:
    - a Python [str] is a list of Unicode code points ([pystr]);
    - a [bytes]/[bytearray] is a [list byte];
    - a Python [int] is a [Z]; buffer offsets and lengths are [nat];
    - exceptions are the [Error] side of [result];
    - [str.lower] and [hashlib.md5] belong to the Python runtime, they are
      taken as section variables;
    - console output ([print]) is not modelled. *)

From Stdlib Require Import ZArith NArith Strings.String Strings.Ascii Strings.Byte.
From Stdlib Require Import DecimalString.
From stdpp Require Import gmap list strings.

Local Open Scope string_scope.
Local Open Scope list_scope.
Local Open Scope N_scope.

(** ** Python strings *)

Abbreviation pystr := (list N).

(** An ASCII literal as a Python string. *)
Definition py (s : string) : pystr :=
  (fun a => N_of_ascii a) <$> list_ascii_of_string s.

(** [s.startswith(p)] *)
Fixpoint starts_with (p s : pystr) : bool :=
  match p, s with
  | [], _ => true
  | a :: p', b :: s' => (a =? b) && starts_with p' s'
  | _ :: _, [] => false
  end.

(** Scan of [str.replace] for a non-empty pattern: leftmost occurrences,
    not overlapping.  [skip] counts the characters of the occurrence just
    replaced that are still to be passed over. *)
Fixpoint replace_from (old new : pystr) (skip : nat) (s : pystr) : pystr :=
  match s with
  | [] => []
  | c :: t =>
      match skip with
      | S k => replace_from old new k t
      | O =>
          if starts_with old s
          then new ++ replace_from old new (List.length old - 1) t
          else c :: replace_from old new 0 t
      end
  end.

(** [s.replace(old, new)]; the empty pattern matches between any two
    characters and at both ends. *)
Definition replace (old new s : pystr) : pystr :=
  match old with
  | [] => new ++ flat_map (fun c => c :: new) s
  | _ :: _ => replace_from old new 0 s
  end.

(** [s.split(sep)] for a separator of one character. *)
Fixpoint split (sep : N) (s : pystr) : list pystr :=
  match s with
  | [] => [[]]
  | c :: t =>
      if c =? sep then [] :: split sep t
      else match split sep t with
           | w :: ws => (c :: w) :: ws
           | [] => [[c]]
           end
  end.

(** [sep.join(parts)] *)
Fixpoint join (sep : pystr) (parts : list pystr) : pystr :=
  match parts with
  | [] => []
  | [w] => w
  | w :: ws => w ++ sep ++ join sep ws
  end.

(** [c in s] for a one-character [c]. *)
Definition contains (c : N) (s : pystr) : bool := existsb (N.eqb c) s.

Definition is_digit (c : N) : bool := (48 <=? c) && (c <=? 57).
Definition is_track_sep (c : N) : bool := (c =? 45) || (c =? 32).

(** [re.match(r'^[0-9][0-9]?[- ]', track)] finds a match. *)
Definition match_tracknum (track : pystr) : bool :=
  match track with
  | d :: r =>
      is_digit d &&
      match r with
      | c :: r' =>
          (is_digit c && match r' with c' :: _ => is_track_sep c' | [] => false end)
          || is_track_sep c
      | [] => false
      end
  | [] => false
  end.

(** [stdtrack]: remove leading track numbers from a track title. *)
Definition stdtrack (track : pystr) : pystr :=
  if match_tracknum track
  then join (py " ") (tail (split 32 track))
  else track.

(** Lowercasing of Basic Latin and Latin-1 Supplement, where [str.lower]
    acts one code point at a time. *)
Definition latin1_lower_cp (c : N) : N :=
  if (65 <=? c) && (c <=? 90) then c + 32
  else if (192 <=? c) && (c <=? 222) && negb (c =? 215) then c + 32
  else c.

Definition latin1_lower (s : pystr) : pystr := latin1_lower_cp <$> s.

(** Characters that Python's [str.isspace] accepts. *)
Definition is_whitespace (c : N) : bool :=
  ((9 <=? c) && (c <=? 13)) || ((28 <=? c) && (c <=? 32))
  || (c =? 133) || (c =? 160) || (c =? 5760)
  || ((8192 <=? c) && (c <=? 8202))
  || (c =? 8232) || (c =? 8233) || (c =? 8239) || (c =? 8287) || (c =? 12288).


(** ** Bytes and integers *)

(** [as_int]: [int.from_bytes(x, byteorder='little')] *)
Fixpoint as_int (x : list byte) : Z :=
  match x with
  | [] => 0%Z
  | b :: t => (Z.of_N (Byte.to_N b) + 256 * as_int t)%Z
  end.

(** The byte of value [z mod 256]. *)
Definition byte_of_Z (z : Z) : byte :=
  default x00 (Byte.of_N (Z.to_N (z mod 256))).

(** [b[i:j]] for [0 <= i]: slices never raise, they are cut short at the
    end of the buffer. *)
Definition slice {A} (b : list A) (i j : nat) : list A :=
  take (j - i) (drop i b).

(** Strict UTF-8 decoding, [bytes.decode()]; [None] is
    [UnicodeDecodeError]. *)
Definition is_cont (n : N) : bool := (128 <=? n) && (n <=? 191).

Fixpoint utf8_decode (bs : list byte) : option pystr :=
  match bs with
  | [] => Some []
  | b0 :: t0 =>
      let n0 := Byte.to_N b0 in
      if n0 <? 128 then cons n0 <$> utf8_decode t0
      else if (194 <=? n0) && (n0 <=? 223) then
        match t0 with
        | b1 :: t1 =>
            let n1 := Byte.to_N b1 in
            if is_cont n1
            then cons ((n0 - 192) * 64 + (n1 - 128)) <$> utf8_decode t1
            else None
        | _ => None
        end
      else if (224 <=? n0) && (n0 <=? 239) then
        match t0 with
        | b1 :: b2 :: t2 =>
            let n1 := Byte.to_N b1 in
            let n2 := Byte.to_N b2 in
            if ((if n0 =? 224 then 160 else 128) <=? n1)
               && (n1 <=? (if n0 =? 237 then 159 else 191))
               && is_cont n2
            then cons ((n0 - 224) * 4096 + (n1 - 128) * 64 + (n2 - 128))
                   <$> utf8_decode t2
            else None
        | _ => None
        end
      else if (240 <=? n0) && (n0 <=? 244) then
        match t0 with
        | b1 :: b2 :: b3 :: t3 =>
            let n1 := Byte.to_N b1 in
            let n2 := Byte.to_N b2 in
            let n3 := Byte.to_N b3 in
            if ((if n0 =? 240 then 144 else 128) <=? n1)
               && (n1 <=? (if n0 =? 244 then 143 else 191))
               && is_cont n2 && is_cont n3
            then cons ((n0 - 240) * 262144 + (n1 - 128) * 4096
                       + (n2 - 128) * 64 + (n3 - 128))
                   <$> utf8_decode t3
            else None
        | _ => None
        end
      else None
  end.

(** ** Exceptions and the state of an [RBDB] object *)

Inductive exn :=
  | AttributeError | NameError | OverflowError | IndexError | KeyError
  | TypeError | UnicodeDecodeError | FileNotFoundError.

Inductive result (A : Type) :=
  | Ok (a : A)
  | Error (e : exn).
Arguments Ok {A} a.
Arguments Error {A} e.

(** [as_bytes]: [int.to_bytes(x, byteorder='little', length=4)] raises
    [OverflowError] on a negative or too large [x]. *)
Definition as_bytes (x : Z) : result (list byte) :=
  if ((0 <=? x) && (x <? 2 ^ 32))%Z
  then Ok [byte_of_Z x; byte_of_Z (x / 2 ^ 8);
           byte_of_Z (x / 2 ^ 16); byte_of_Z (x / 2 ^ 24)]
  else Error OverflowError.

(** Keys of [RBDB.datas]: the string ["idx"] or the position of a tag. *)
Inductive file_index :=
  | IDX
  | TAG (n : nat).

#[global] Instance file_index_eq_dec : EqDecision file_index.
Proof. solve_decision. Defined.

#[global] Instance file_index_countable : Countable file_index.
Proof.
  refine (inj_countable'
    (fun i => match i with IDX => None | TAG n => Some n end)
    (fun o => match o with None => IDX | Some n => TAG n end) _).
  by intros [].
Defined.

Definition IDX_ARTIST : nat := 0.
Definition IDX_ALBUM : nat := 1.
Definition IDX_TITLE : nat := 3.
Definition IDX_FILE : nat := 4.
Definition IDX_COMPOSER : nat := 5.
Definition IDX_COMMENT : nat := 6.
Definition IDX_ALBUMARTIST : nat := 7.
Definition IDX_GROUPING : nat := 8.
Definition IDX_CANONICALARTIST : nat := 12.

Definition file_indexes : list file_index :=
  [ IDX; TAG IDX_ARTIST; TAG IDX_ALBUM; TAG IDX_TITLE; TAG IDX_FILE;
    TAG IDX_COMPOSER; TAG IDX_COMMENT; TAG IDX_ALBUMARTIST;
    TAG IDX_GROUPING; TAG IDX_CANONICALARTIST ].

(** [RBDB.positions], in the order of the dict literal. *)
Definition positions : list (string * nat) :=
  [ ("ARTIST", 0); ("ALBUM", 1); ("GENRE", 2); ("TITLE", 3); ("FILE", 4);
    ("COMPOSER", 5); ("COMMENT", 6); ("ALBUMARTIST", 7); ("GROUPING", 8);
    ("YEAR", 9); ("DISCNO", 10); ("TRACKNO", 11); ("CANONICALARTIST", 12);
    ("BITRATE", 13); ("LEN", 14); ("PLAYCOUNT", 15); ("RATING", 16);
    ("PLAYTIME", 17); ("LASTPLAYED", 18); ("COMMITID", 19); ("MTIME", 20);
    ("LASTELAPSED", 21); ("LASTOFFSET", 22); ("FLAGS", 23) ]%nat.

Definition ENTRY_LEN : nat := 96.

(** [str(i)] for a key of [datas]. *)
Definition str_of_file_index (i : file_index) : pystr :=
  match i with
  | IDX => py "idx"
  | TAG n => py (NilZero.string_of_uint (Nat.to_uint n))
  end.

Record RBDB := mkRBDB {
  paths : gmap file_index pystr;
  datas : gmap file_index (list byte);
  checksums : gmap file_index pystr;
  cur_offset : nat;
  dbver : Z;
  dbsize : Z;
  dbcount : Z;
  dbserial : Z;
  dbcommit : Z;
  dbdirty : Z;
}.

Definition set_datas (d : gmap file_index (list byte)) (db : RBDB) : RBDB :=
  mkRBDB (paths db) d (checksums db) (cur_offset db)
         (dbver db) (dbsize db) (dbcount db) (dbserial db) (dbcommit db) (dbdirty db).

Definition set_cur_offset (o : nat) (db : RBDB) : RBDB :=
  mkRBDB (paths db) (datas db) (checksums db) o
         (dbver db) (dbsize db) (dbcount db) (dbserial db) (dbcommit db) (dbdirty db).

(** Methods of [RBDB] run on the object's state; the state reached when an
    exception is raised is kept, as the [bytearray]s are changed in place. *)
Definition M (A : Type) : Type := RBDB -> result A * RBDB.

Definition ret {A} (a : A) : M A := fun db => (Ok a, db).
Definition raise {A} (e : exn) : M A := fun db => (Error e, db).
Definition bind {A B} (m : M A) (k : A -> M B) : M B :=
  fun db =>
    match m db with
    | (Ok a, db') => k a db'
    | (Error e, db') => (Error e, db')
    end.
Definition gets {A} (f : RBDB -> A) : M A := fun db => (Ok (f db), db).
Definition modify (f : RBDB -> RBDB) : M unit := fun db => (Ok tt, f db).
Definition lift {A} (r : result A) : M A := fun db => (r, db).

Declare Scope rbdb_scope.
Delimit Scope rbdb_scope with rbdb.
Notation "x <- m ;; k" := (bind m (fun x => k))
  (at level 100, m at next level, right associativity) : rbdb_scope.
Notation "m ;;; k" := (bind m (fun _ => k))
  (at level 100, right associativity) : rbdb_scope.
Local Open Scope rbdb_scope.

(** [d[k]] on a dict: [KeyError] when the key is absent. *)
Definition getitem {K V} `{Countable K} (d : gmap K V) (k : K) : result V :=
  match d !! k with
  | Some v => Ok v
  | None => Error KeyError
  end.

(** [self.positions[field_name]] *)
Definition position (field_name : string) : result nat :=
  match list_find (fun p => p.1 = field_name) positions with
  | Some (_, (_, pos)) => Ok pos
  | None => Error KeyError
  end.

(** [self.datas[i]] *)
Definition data (i : file_index) : M (list byte) :=
  fun db => (getitem (datas db) i, db).

(** A decoded entry: field name to value, plus ["index"]. *)
Inductive value :=
  | VInt (z : Z)
  | VStr (s : pystr).

(** The scan of [_get_string_at_offset]: the bytes before the first zero. *)
Fixpoint until_zero (_var : list byte) : list byte :=
  match _var with
  | [] => []
  | x :: rest => if Byte.eqb x x00 then [] else x :: until_zero rest
  end.

(** [RBDB._get_string_at_offset] *)
Definition _get_string_at_offset (tagidx : file_index) (offset : nat) : M pystr :=
  d <- data tagidx ;;
  let _len := as_int (slice d offset (offset + 4)) in
  d <- data tagidx ;;
  let _idx := as_int (slice d (offset + 4) (offset + 8)) in
  d <- data tagidx ;;
  let _var := slice d (offset + 8) (offset + 8 + Z.to_nat _len) in
  let s := until_zero _var in
  match utf8_decode s with
  | Some text => ret text
  | None => raise UnicodeDecodeError
  end.

(** The loop of [RBDB.entry] over [positions.items()]. *)
Fixpoint entry_loop (entry_offset : nat) (items : list (string * nat))
    (values : gmap string value) : M (gmap string value) :=
  match items with
  | [] => ret values
  | (pos_name, pos_offset) :: items' =>
      let offset := (entry_offset + pos_offset * 4)%nat in
      d <- data IDX ;;
      let _idx := slice d offset (offset + 4) in
      let values := <[pos_name := VInt (as_int _idx)]> values in
      if bool_decide (TAG pos_offset ∈ file_indexes)
      then
        s <- _get_string_at_offset (TAG pos_offset) (Z.to_nat (as_int _idx)) ;;
        entry_loop entry_offset items' (<[pos_name := VStr s]> values)
      else entry_loop entry_offset items' values
  end.

(** [RBDB.entry] *)
Definition entry (entry_offset : nat) : M (gmap string value) :=
  entry_loop entry_offset positions {[ "index" := VInt (Z.of_nat entry_offset) ]}.

(** [RBDB.next_entry] *)
Definition next_entry : M (gmap string value) :=
  cur <- gets cur_offset ;;
  e <- entry cur ;;
  cur <- gets cur_offset ;;
  modify (set_cur_offset (cur + ENTRY_LEN)) ;;;
  ret e.

(** [RBDB.EOF] *)
Definition EOF : M bool :=
  cur <- gets cur_offset ;;
  d <- data IDX ;;
  ret (bool_decide (length d <= cur)%nat).

(** [self.datas[self.IDX][i] = v]: [IndexError] outside the buffer. *)
Definition setitem_idx (i : nat) (v : byte) : M unit :=
  d <- data IDX ;;
  if bool_decide (i < length d)%nat
  then modify (fun db => set_datas (<[IDX := <[i := v]> d]> (datas db)) db)
  else raise IndexError.

(** The loop [for x in range(len(newvalue_as_bytes))], from [x] on. *)
Fixpoint write_bytes (offset x : nat) (bs : list byte) : M unit :=
  match bs with
  | [] => ret tt
  | b :: bs' => setitem_idx (offset + x) b ;;; write_bytes offset (S x) bs'
  end.

(** [RBDB.update_numeric_field] *)
Definition update_numeric_field (index : nat) (field_name : string) (newvalue : Z) : M unit :=
  pos <- lift (position field_name) ;;
  let offset := (index + pos * 4)%nat in
  newvalue_as_bytes <- lift (as_bytes newvalue) ;;
  write_bytes offset 0 newvalue_as_bytes.

(** [RBDB.get_numeric_field] *)
Definition get_numeric_field (index : nat) (field_name : string) : M Z :=
  pos <- lift (position field_name) ;;
  let offset := (index + pos * 4)%nat in
  d <- data IDX ;;
  ret (as_int (slice d offset (offset + 4))).

(** [self.index] inside a method of [RBDB]: neither the class nor its
    instances define an attribute [index]. *)
Definition self_index : M nat := raise AttributeError.

(** [RBDB.update_entry] *)
Definition update_entry (index : nat) (playcount : option Z) (update_playtime : bool) : M unit :=
  match playcount with
  | Some pc =>
      i <- self_index ;;
      update_numeric_field i "PLAYCOUNT" pc
  | None => ret tt
  end ;;;
  if update_playtime
  then
    playcount <- get_numeric_field index "PLAYCOUNT" ;;
    _len <- get_numeric_field index "LEN" ;;
    let new_playtime := (playcount * _len)%Z in
    update_numeric_field index "PLAYTIME" new_playtime
  else ret tt.

(** [f"{root}/database_{i}.tcd"] *)
Definition database_path (root : pystr) (i : file_index) : pystr :=
  root ++ py "/database_" ++ str_of_file_index i ++ py ".tcd".

(** ** The file system *)

(** Files by path, and the paths written so far, oldest first. *)
Record World := mkWorld {
  files : gmap pystr (list byte);
  written : list pystr;
}.

(** [open(path, "rb").read()] *)
Definition read_file (path : pystr) (w : World) : result (list byte) :=
  match files w !! path with
  | Some content => Ok content
  | None => Error FileNotFoundError
  end.

(** [open(path, "wb")] followed by [f.write(content)] *)
Definition write_file (path : pystr) (content : list byte) (w : World) : World :=
  mkWorld (<[path := content]> (files w)) (written w ++ [path]).

(** ** Tracks *)

Record Track := mkTrack {
  artist : pystr;
  album : pystr;
  title : pystr;
  key : pystr;
}.

(** [Track.eq] *)
Definition Track_eq (self track : Track) : bool :=
  bool_decide (key self = key track).

(** [Track.eq_strict] *)
Definition Track_eq_strict (self track : Track) : bool :=
  bool_decide (artist self = artist track)
  && bool_decide (album self = album track)
  && bool_decide (title self = title track).

(** [s.strip()] *)
Fixpoint lstrip (s : pystr) : pystr :=
  match s with
  | c :: t => if is_whitespace c then lstrip t else s
  | [] => []
  end.
Definition strip (s : pystr) : pystr := rev (lstrip (rev (lstrip s))).

(** Names bound in the module namespace when the import branch of
    [__main__] runs; [ok] and [ko] are bound nowhere, and they are no
    builtins. *)
Definition module_names : list string :=
  [ "sys"; "csv"; "struct"; "re"; "hashlib"; "argparse"; "as_int"; "as_bytes";
    "stdtrack"; "strstd"; "Track"; "RBDB"; "LastFM"; "parser"; "args"; "rbdb";
    "lastfm"; "done"; "missing"; "entry"; "track"; "lastfm_entry";
    "entry_playcount"; "lastfm_playcount" ].

Definition load_name (name : string) : result unit :=
  if bool_decide (name ∈ module_names) then Ok tt else Error NameError.

Section Runtime.

(** [str.lower] *)
Variable lower : pystr -> pystr.

(** [hashlib.md5(data).hexdigest()] *)
Variable md5 : list byte -> pystr.

(** [strstd], up to the final lowercasing. *)
Definition strstd_clean (s : pystr) : pystr :=
  let s := replace (py "'") [] s in
  let s := replace (py "'") [] s in
  let s := replace (py "&") (py "and") s in
  let s := replace (py "?") [] s in
  let s := replace (py ",") [] s in
  let s := replace (py "-") [] s in
  let s := replace (py "!") [] s in
  let s := replace (py ".") [] s in
  let s := replace (py "`") [] s in
  let s := replace (py " ") [] s in
  let s := replace [225] (py "a") s in
  let s := replace [233] (py "e") s in
  let s := replace [237] (py "i") s in
  let s := replace [243] (py "o") s in
  let s := replace [250] (py "u") s in
  let s := replace (py "Thirty") (py "30") s in
  if contains 40 s then nth 0 (split 40 s) [] else s.

(** [strstd]: remove characters irrelevant for matching. *)
Definition strstd (s : pystr) : pystr := lower (strstd_clean s).

(** [Track.__init__] *)
Definition Track_init (artist album title : pystr) : Track :=
  mkTrack artist album title (strstd (artist ++ album ++ stdtrack title)).

(** [Track.from_rbdb_entry]; [entry] stores a string under each of the
    three names, anything else cannot be passed on to [stdtrack]. *)
Definition Track_from_rbdb_entry (entry : gmap string value) : result Track :=
  match entry !! "ARTIST", entry !! "ALBUM", entry !! "TITLE" with
  | Some (VStr artist), Some (VStr album), Some (VStr title) =>
      Ok (Track_init artist album title)
  | _, _, _ => Error TypeError
  end.

(** The loop of [RBDB.__init__] over [file_indexes]. *)
Fixpoint init_loop (root : pystr) (w : World) (indexes : list file_index)
    (self : RBDB) : result RBDB :=
  match indexes with
  | [] => Ok self
  | i :: indexes' =>
      let path := database_path root i in
      match read_file path w with
      | Error e => Error e
      | Ok content =>
          init_loop root w indexes'
            (mkRBDB (<[i := path]> (paths self))
                    (<[i := content]> (datas self))
                    (<[i := md5 content]> (checksums self))
                    (cur_offset self) (dbver self) (dbsize self) (dbcount self)
                    (dbserial self) (dbcommit self) (dbdirty self))
      end
  end.

(** [RBDB.__init__] *)
Definition RBDB_init (root : pystr) (w : World) : result RBDB :=
  match init_loop root w file_indexes (mkRBDB ∅ ∅ ∅ 0 0 0 0 0 0 0) with
  | Error e => Error e
  | Ok self =>
      match getitem (datas self) IDX with
      | Error e => Error e
      | Ok idx =>
          Ok (mkRBDB (paths self) (datas self) (checksums self) 24
                (as_int (slice idx 0 4)) (as_int (slice idx 4 8))
                (as_int (slice idx 8 12)) (as_int (slice idx 12 16))
                (as_int (slice idx 16 20)) (as_int (slice idx 20 24)))
      end
  end.

(** [RBDB.overwrite] *)
Definition overwrite (self : RBDB) (index : file_index) (w : World) : result unit * World :=
  match getitem (paths self) index with
  | Error e => (Error e, w)
  | Ok path =>
      match getitem (datas self) index with
      | Error e => (Error e, write_file path [] w)
      | Ok d => (Ok tt, write_file path d w)
      end
  end.

(** [self.datas.items()]: the keys of [datas] are those of [file_indexes],
    inserted in that order. *)
Definition datas_items (self : RBDB) : list (file_index * list byte) :=
  omap (fun i => pair i <$> datas self !! i) file_indexes.

(** The loop of [RBDB.commit]. *)
Fixpoint commit_loop (self : RBDB) (items : list (file_index * list byte))
    (w : World) : result unit * World :=
  match items with
  | [] => (Ok tt, w)
  | (i, d) :: items' =>
      match getitem (checksums self) i with
      | Error e => (Error e, w)
      | Ok orig_sum =>
          let new_sum := md5 d in
          if bool_decide (orig_sum <> new_sum)
          then match overwrite self i w with
               | (Ok _, w') => commit_loop self items' w'
               | (Error e, w') => (Error e, w')
               end
          else commit_loop self items' w
      end
  end.

(** [RBDB.commit] *)
Definition commit (self : RBDB) (w : World) : result unit * World :=
  commit_loop self (datas_items self) w.

(** *** The last.fm ledger *)

Record lastfm_row := mk_row {
  count : Z;
  track : Track;
}.

(** The body of the loop of [LastFM._parse], on the three columns read
    from one row of the export. *)
Definition LastFM_add (data : gmap pystr lastfm_row) (row : pystr * pystr * pystr)
    : gmap pystr lastfm_row :=
  let '(a, b, t) := row in
  let artist := lower (strip a) in
  let album := lower (strip b) in
  let title := lower (strip t) in
  let tr := Track_init artist album title in
  match data !! key tr with
  | None => <[key tr := mk_row 1 tr]> data
  | Some r => <[key tr := mk_row (count r + 1) (track r)]> data
  end.

(** [LastFM._parse], from the rows of the export. *)
Definition LastFM_parse (rows : list (pystr * pystr * pystr)) : gmap pystr lastfm_row :=
  foldl LastFM_add ∅ rows.

(** [LastFM.exists] *)
Definition LastFM_exists (data : gmap pystr lastfm_row) (track : Track) : option lastfm_row :=
  data !! key track.

(** *** The import branch of [__main__] *)

(** An entry field used as an integer. *)
Definition int_field (entry : gmap string value) (name : string) : result Z :=
  match entry !! name with
  | Some (VInt z) => Ok z
  | _ => Error TypeError
  end.

(** The body of the [while] loop after [next_entry]; [lastfm] is [None]
    without [--lastfm]. *)
Definition import_entry (lastfm : option (gmap pystr lastfm_row))
    (done missing : Z) (entry : gmap string value) : M (Z * Z) :=
  track <- lift (Track_from_rbdb_entry entry) ;;
  data <- lift (match lastfm with Some d => Ok d | None => Error AttributeError end) ;;
  match LastFM_exists data track with
  | Some lastfm_entry =>
      entry_playcount <- lift (int_field entry "PLAYCOUNT") ;;
      let lastfm_playcount := count lastfm_entry in
      (if (lastfm_playcount >? entry_playcount)%Z
       then index <- lift (int_field entry "index") ;;
            update_entry (Z.to_nat index) (Some (count lastfm_entry)) false
       else ret tt) ;;;
      playcount <- lift (int_field entry "PLAYCOUNT") ;;
      (if (playcount >? 0)%Z
       then playtime <- lift (int_field entry "PLAYTIME") ;;
            if (playtime =? 0)%Z
            then index <- lift (int_field entry "index") ;;
                 update_entry (Z.to_nat index) None true
            else ret tt
       else ret tt) ;;;
      ret ((done + 1)%Z, missing)
  | None => ret (done, (missing + 1)%Z)
  end.

(** The body of the [while] loop. *)
Definition import_step (lastfm : option (gmap pystr lastfm_row))
    (done missing : Z) : M (Z * Z) :=
  entry <- next_entry ;;
  import_entry lastfm done missing entry.

(** [while not rbdb.EOF(): ...] with a bound on the number of rounds;
    [None] when the bound is reached. *)
Fixpoint import_loop (fuel : nat) (lastfm : option (gmap pystr lastfm_row))
    (done missing : Z) (db : RBDB) : option (result (Z * Z) * RBDB) :=
  match fuel with
  | O => None
  | S fuel' =>
      match EOF db with
      | (Error e, db') => Some (Error e, db')
      | (Ok true, db') => Some (Ok (done, missing), db')
      | (Ok false, db') =>
          match import_step lastfm done missing db' with
          | (Error e, db'') => Some (Error e, db'')
          | (Ok (done', missing'), db'') => import_loop fuel' lastfm done' missing' db''
          end
      end
  end.

(** The branch [if args.import_counts:], on the catalog [rbdb] and the
    ledger [lastfm].  Every round moves the cursor by [ENTRY_LEN] bytes, one
    round more than the index has bytes is enough. *)
Definition import_counts (lastfm : option (gmap pystr lastfm_row)) (rbdb : RBDB)
    (w : World) : option (result unit * RBDB * World) :=
  match import_loop (S (length (default [] (datas rbdb !! IDX)))) lastfm 0 0 rbdb with
  | None => None
  | Some (Error e, rbdb') => Some (Error e, rbdb', w)
  | Some (Ok (done, missing), rbdb') =>
      match load_name "ok" with
      | Error e => Some (Error e, rbdb', w)
      | Ok _ =>
          match load_name "ko" with
          | Error e => Some (Error e, rbdb', w)
          | Ok _ =>
              let '(r, w') := commit rbdb' w in
              Some (r, rbdb', w')
          end
      end
  end.

End Runtime.

(** ** Reference definitions of the specification *)

(** The part of [s] before the first [c]. *)
Fixpoint before (c : N) (s : pystr) : pystr :=
  match s with
  | [] => []
  | x :: t => if x =? c then [] else x :: before c t
  end.

(** Characters that the specification's canonicalize removes: straight
    and curly apostrophe, question mark, comma, hyphen, exclamation mark,
    period, backtick, and all whitespace. *)
Definition spec_removed (c : N) : bool :=
  (c =? 39) || (c =? 8217) || (c =? 63) || (c =? 44) || (c =? 45)
  || (c =? 33) || (c =? 46) || (c =? 96) || is_whitespace c.

(** The five accented vowels and their plain forms. *)
Definition unaccent (c : N) : N :=
  if c =? 225 then 97 else if c =? 233 then 101 else if c =? 237 then 105
  else if c =? 243 then 111 else if c =? 250 then 117 else c.

(** canonicalize as the specification words it: "Thirty" is replaced before
    the lowercasing step, the other rules follow on the lowercased text. *)
Definition canonicalize (lower : pystr -> pystr) (s : pystr) : pystr :=
  let s := replace (py "Thirty") (py "30") s in
  let s := lower s in
  let s := List.filter (fun c => negb (spec_removed c)) s in
  let s := replace (py "&") (py "and") s in
  let s := unaccent <$> s in
  before 40 s.

(** The same rules with the space as the only whitespace, one character at
    a time: what a character of the input becomes before "Thirty" is looked
    for. *)
Definition canon_char (c : N) : pystr :=
  if (c =? 39) || (c =? 8217) || (c =? 63) || (c =? 44) || (c =? 45)
     || (c =? 33) || (c =? 46) || (c =? 96) || (c =? 32)
  then []
  else if c =? 38 then py "and"
  else [unaccent c].

(** canonicalize with its steps in the order of the code: the rules on
    single characters, then "Thirty", then the cut at the parenthesis, and
    the lowercasing last. *)
Definition canonicalize_ordered (lower : pystr -> pystr) (s : pystr) : pystr :=
  lower (before 40 (replace (py "Thirty") (py "30") (flat_map canon_char s))).

(** What [strstd] makes of one character before "Thirty" is looked for. *)
Definition clean_char (c : N) : pystr :=
  if (c =? 39) || (c =? 63) || (c =? 44) || (c =? 45)
     || (c =? 33) || (c =? 46) || (c =? 96) || (c =? 32)
  then []
  else if c =? 38 then py "and"
  else [unaccent c].

(** Characters that no key contains. *)
Definition stripped : list N := [32; 39; 63; 44; 45; 33; 46; 96; 38; 40].

(** A title that begins with one or two ASCII digits and a separator. *)
Definition has_tracknum (title : pystr) : Prop :=
  exists (d : pystr) (sep : N) (rest : pystr),
    title = d ++ sep :: rest /\
    (length d = 1 \/ length d = 2)%nat /\
    Forall (fun c => is_digit c = true) d /\
    (sep = 45 \/ sep = 32).

(** Characters that the single-character rules of [strstd] rewrite. *)
Definition rewritten : list N :=
  [39; 38; 63; 44; 45; 33; 46; 96; 32; 225; 233; 237; 243; 250].

Definition untouched (c : N) : Prop := c ∉ rewritten.

Local Close Scope N_scope.

(** ** Frames of the operations *)

(** What no method changes: paths, fingerprints, the string tables, and the
    length of the index buffer. *)
Record same_stores (db db' : RBDB) : Prop := mk_same_stores {
  ss_paths : paths db' = paths db;
  ss_checksums : checksums db' = checksums db;
  ss_tags : forall j, j <> IDX -> datas db' !! j = datas db !! j;
  ss_len : length <$> datas db' !! IDX = length <$> datas db !! IDX;
}.

(** A method keeps the frame and the cursor. *)
Definition frames {A} (m : M A) : Prop :=
  forall db, same_stores db (m db).2 /\ cur_offset (m db).2 = cur_offset db.

(** A method leaves the buffers of the string tables as they are. *)
Definition keeps_string_tables {A} (m : M A) : Prop :=
  forall db j, j <> IDX -> datas (m db).2 !! j = datas db !! j.

(** What [RBDB.__init__] stores for the key [i]. *)
Definition loaded_store (md5 : list byte -> pystr) (root : pystr) (w : World)
    (self : RBDB) (i : file_index) : Prop :=
  exists content,
    files w !! database_path root i = Some content
    /\ paths self !! i = Some (database_path root i)
    /\ datas self !! i = Some content
    /\ checksums self !! i = Some (md5 content).

(** The stores of [self] whose hash is not the one of [orig]. *)
Definition changed_stores (md5 : list byte -> pystr)
    (orig : gmap file_index (list byte)) (self : RBDB)
    (indexes : list file_index) : list file_index :=
  filter (fun i => md5 <$> datas self !! i <> md5 <$> orig !! i) indexes.

(** ** Example databases *)

(** A stand-in for the digest in the examples: the content itself. *)
Definition plain_digest (bs : list byte) : pystr := Byte.to_N <$> bs.

Definition example_root : pystr := py "db".

(** A database directory with the given index and artist files, the other
    string tables empty. *)
Definition example_world (idx artist : list byte) : World :=
  mkWorld
    (list_to_map
       ((fun i => (database_path example_root i,
                   match i with
                   | IDX => idx
                   | TAG 0 => artist
                   | TAG _ => []
                   end)) <$> file_indexes))
    [].

Definition example_header : list byte := repeat x00 24.

(** An entry with the given LEN and PLAYCOUNT, every other field 0. *)
Definition example_entry (len playcount : byte) : list byte :=
  repeat x00 56 ++ [len; x00; x00; x00] ++ [playcount; x00; x00; x00]
  ++ repeat x00 32.

(** One string record: length 1, sequence 0, payload "a". *)
Definition artist_table : list byte :=
  [x01; x00; x00; x00; x00; x00; x00; x00; x61].

Definition loaded (w : World) : RBDB :=
  match RBDB_init plain_digest example_root w with
  | Ok db => db
  | Error _ => mkRBDB ∅ ∅ ∅ 0 0 0 0 0 0 0
  end.

(** One track by "a" of length 200 with the given play count. *)
Definition one_track_world (playcount : byte) : World :=
  example_world (example_header ++ example_entry xc8 playcount) artist_table.

(** A catalog without entries. *)
Definition empty_catalog_world : World := example_world example_header [].

(** A catalog whose index file ends ten bytes into the first entry, in the
    middle of GENRE. *)
Definition truncated_index : list byte :=
  example_header ++ repeat x00 8 ++ [x01; x02].

Definition truncated_world : World := example_world truncated_index [].

(** The ledger of an export with the one row "A;;". *)
Definition one_play_ledger : gmap pystr lastfm_row :=
  LastFM_parse latin1_lower [(py "A", [], [])].

(** The value of a field of the entry at [index], read back from the index
    buffer. *)
Definition field_of (db : RBDB) (index : nat) (name : string) : result Z :=
  (get_numeric_field index name db).1.

(** ** Further parts of the program *)

(** *** Strings *)

Local Open Scope N_scope.

(** The part of [s] after the first [c], empty when [s] holds no [c]. *)
Fixpoint after (c : N) (s : pystr) : pystr :=
  match s with
  | [] => []
  | x :: t => if x =? c then t else after c t
  end.

(** Characters that [strstd] drops wherever they stand. *)
Definition dropped : list N := [39; 63; 44; 45; 33; 46; 96; 32].

(** The accented vowels that [strstd] unaccents, and their capitals. *)
Definition accented : list N := [225; 233; 237; 243; 250].
Definition capital_accented : list N := [193; 201; 205; 211; 218].

Local Close Scope N_scope.

(** *** Calls and their frames *)

(** The bytes of a text of ASCII characters other than NUL. *)
Definition ascii_text (bs : list byte) : Prop :=
  Forall (fun b => (0 < Byte.to_N b < 128)%N) bs.

(** A call of a method of [RBDB] by a client of the class. *)
Inductive op :=
  | OpNextEntry
  | OpEOF
  | OpGetNumericField (index : nat) (field_name : string)
  | OpUpdateNumericField (index : nat) (field_name : string) (newvalue : Z)
  | OpUpdateEntry (index : nat) (playcount : option Z) (update_playtime : bool).

(** The object after the call, whether the call returned or raised. *)
Definition run_op (o : op) (db : RBDB) : RBDB :=
  match o with
  | OpNextEntry => (next_entry db).2
  | OpEOF => (EOF db).2
  | OpGetNumericField index name => (get_numeric_field index name db).2
  | OpUpdateNumericField index name v => (update_numeric_field index name v db).2
  | OpUpdateEntry index pc b => (update_entry index pc b db).2
  end.

(** The object after a sequence of calls. *)
Definition run_ops (ops : list op) (db : RBDB) : RBDB :=
  foldl (fun db o => run_op o db) db ops.

(** A method leaves the object as it is. *)
Definition reads_only {A} (m : M A) : Prop := forall db, (m db).2 = db.

(** A method changes no byte of the index buffer outside [lo, hi). *)
Definition writes_within (lo hi : nat) {A} (m : M A) : Prop :=
  forall db buf, datas db !! IDX = Some buf ->
    exists buf', datas (m db).2 !! IDX = Some buf'
      /\ forall i, ~ (lo <= i < hi) -> buf' !! i = buf !! i.

(** The string that a field of the entry at [entry_offset] stands for: the
    record of the table [pos] at the offset that the field holds. *)
Definition field_string (db : RBDB) (buf : list byte) (entry_offset pos : nat)
    : result pystr :=
  (_get_string_at_offset (TAG pos)
     (Z.to_nat (as_int (slice buf (entry_offset + pos * 4)
                                  (entry_offset + pos * 4 + 4)))) db).1.

(** The entry that [next_entry] returns first on a loaded example. *)
Definition first_entry (w : World) : gmap string value :=
  match (next_entry (loaded w)).1 with
  | Ok e => e
  | Error _ => ∅
  end.


(** *** The ledger *)

(** The track that [LastFM._parse] builds from a row of the export. *)
Definition row_track (lower : pystr -> pystr) (row : pystr * pystr * pystr) : Track :=
  let '(a, b, t) := row in
  Track_init lower (lower (strip a)) (lower (strip b)) (lower (strip t)).

(** [LastFM.count] *)
Definition LastFM_count (data : gmap pystr lastfm_row) : nat := size data.

(** [LastFM.artist_count] *)
Definition LastFM_artist_count (lower : pystr -> pystr)
    (data : gmap pystr lastfm_row) : nat :=
  size (list_to_set ((fun x => lower (artist (track x))) <$> (map_to_list data).*2)
          : gset pystr).

(** [LastFM.album_count] *)
Definition LastFM_album_count (lower : pystr -> pystr)
    (data : gmap pystr lastfm_row) : nat :=
  size (list_to_set ((fun x => lower (album (track x))) <$> (map_to_list data).*2)
          : gset pystr).

(** The sum of the counts of a ledger. *)
Definition total_count (data : gmap pystr lastfm_row) : Z :=
  foldr Z.add 0%Z (count <$> (map_to_list data).*2).

(** *** The search branch of [__main__] *)

(** [needle in s] on strings. *)
Fixpoint str_in (needle s : pystr) : bool :=
  starts_with needle s
  || match s with
     | [] => false
     | _ :: t => str_in needle t
     end.

Section Find.

Variable lower : pystr -> pystr.

(** The body of the [while] loop of the branch [if args.find:]; [printed]
    holds the tracks printed so far, oldest first. *)
Definition find_step (find : pystr) (printed : list Track) : M (list Track) :=
  entry <- next_entry ;;
  track <- lift (Track_from_rbdb_entry lower entry) ;;
  if str_in (lower find) (key track)
  then ret (printed ++ [track])
  else ret printed.

(** [while not rbdb.EOF(): ...] of that branch with a bound on the number
    of rounds; [None] when the bound is reached. *)
Fixpoint find_loop (fuel : nat) (find : pystr) (printed : list Track)
    (db : RBDB) : option (result (list Track) * RBDB) :=
  match fuel with
  | O => None
  | S fuel' =>
      match EOF db with
      | (Error e, db') => Some (Error e, db')
      | (Ok true, db') => Some (Ok printed, db')
      | (Ok false, db') =>
          match find_step find printed db' with
          | (Error e, db'') => Some (Error e, db'')
          | (Ok printed', db'') => find_loop fuel' find printed' db''
          end
      end
  end.

(** The branch [if args.find:], up to [sys.exit(0)]: the tracks printed. *)
Definition find_tracks (find : pystr) (rbdb : RBDB)
    : option (result (list Track) * RBDB) :=
  find_loop (S (length (default [] (datas rbdb !! IDX)))) find [] rbdb.

(** The track of the entry at an offset of the index buffer. *)
Definition track_at (db : RBDB) (offset : nat) : result Track :=
  match (entry offset db).1 with
  | Ok e => Track_from_rbdb_entry lower e
  | Error x => Error x
  end.

End Find.

(** The offsets [cur], [cur + 96], ... below [len]. *)
Definition entry_offsets (cur len : nat) : list nat :=
  (fun k => cur + 96 * k) <$> seq 0 ((len - cur + 95) / 96).

(** The values of a list of results, or the first error among them. *)
Fixpoint collect {A} (rs : list (result A)) : result (list A) :=
  match rs with
  | [] => Ok []
  | Error x :: _ => Error x
  | Ok a :: rs' =>
      match collect rs' with
      | Ok l => Ok (a :: l)
      | Error x => Error x
      end
  end.

Local Open Scope N_scope.

(** ** Strings: replace, split and join *)

Lemma replace_single c new s :
  replace [c] new s = flat_map (fun x => if x =? c then new else [x]) s.
Proof.
  unfold replace. induction s as [|a s IH]; simpl; [done|].
  rewrite andb_true_r, (N.eqb_sym c a).
  destruct (a =? c); simpl; by rewrite IH.
Qed.

Lemma clean_char_steps (c : N) :
  flat_map (fun x => if x =? 250 then [117] else [x])
   (flat_map (fun x => if x =? 243 then [111] else [x])
    (flat_map (fun x => if x =? 237 then [105] else [x])
     (flat_map (fun x => if x =? 233 then [101] else [x])
      (flat_map (fun x => if x =? 225 then [97] else [x])
       (flat_map (fun x => if x =? 32 then [] else [x])
        (flat_map (fun x => if x =? 96 then [] else [x])
         (flat_map (fun x => if x =? 46 then [] else [x])
          (flat_map (fun x => if x =? 33 then [] else [x])
           (flat_map (fun x => if x =? 45 then [] else [x])
            (flat_map (fun x => if x =? 44 then [] else [x])
             (flat_map (fun x => if x =? 63 then [] else [x])
              (flat_map (fun x => if x =? 38 then [97; 110; 100] else [x])
               (flat_map (fun x => if x =? 39 then [] else [x])
                (if c =? 39 then [] else [c]))))))))))))))
  = clean_char c.
Proof.
  unfold clean_char, unaccent.
  repeat match goal with
  | |- context [c =? ?k] =>
      lazymatch goal with
      | H : (c =? k) = false |- _ => fail
      | _ => destruct (c =? k) eqn:?
      end;
      [ match goal with H : (c =? k) = true |- _ =>
          apply N.eqb_eq in H; subst c; reflexivity end | ]
  end.
  repeat (simpl; match goal with H : (c =? _) = false |- _ => rewrite H end).
  reflexivity.
Qed.

Lemma first_split_before c s : nth 0 (split c s) [] = before c s.
Proof.
  induction s as [|x s IH]; simpl; [done|].
  destruct (x =? c); [done|].
  destruct (split c s) as [|w ws] eqn:E; simpl in *; by rewrite <- IH.
Qed.

Lemma before_absent c s : contains c s = false -> before c s = s.
Proof.
  unfold contains. induction s as [|x s IH]; simpl; [done|].
  rewrite (N.eqb_sym c x). destruct (x =? c); simpl; [done|].
  intros H. by rewrite IH.
Qed.

Lemma cut_at_paren s :
  (if contains 40 s then nth 0 (split 40 s) [] else s) = before 40 s.
Proof.
  destruct (contains 40 s) eqn:E.
  - apply first_split_before.
  - symmetry. by apply before_absent.
Qed.

(** [strstd] before the lowercasing: one pass over the characters, then
    "Thirty", then the cut at the first parenthesis. *)
Lemma strstd_clean_chars s :
  strstd_clean s = before 40 (replace (py "Thirty") (py "30") (flat_map clean_char s)).
Proof.
  unfold strstd_clean. rewrite cut_at_paren. do 2 f_equal.
  change (py "'") with [39]. change (py "&") with [38].
  change (py "?") with [63]. change (py ",") with [44].
  change (py "-") with [45]. change (py "!") with [33].
  change (py ".") with [46]. change (py "`") with [96].
  change (py " ") with [32]. change (py "and") with [97; 110; 100].
  change (py "a") with [97]. change (py "e") with [101].
  change (py "i") with [105]. change (py "o") with [111].
  change (py "u") with [117].
  rewrite !replace_single.
  induction s as [|c s IH]; [done|].
  cbn [flat_map]. rewrite !flat_map_app, IH. f_equal.
  apply clean_char_steps.
Qed.

Lemma split_nonempty c s : split c s <> [].
Proof.
  destruct s as [|x s]; simpl; [done|].
  destruct (x =? c); [done|]. by destruct (split c s).
Qed.

Lemma join_split c s : join [c] (split c s) = s.
Proof.
  induction s as [|x s IH]; simpl; [done|].
  pose proof (split_nonempty c s) as Hne.
  destruct (N.eqb_spec x c) as [->|Hx].
  - destruct (split c s) as [|w ws]; [done|]. simpl in *. by rewrite IH.
  - destruct (split c s) as [|w ws]; [done|].
    destruct ws as [|w' ws]; simpl in *; by rewrite <- IH.
Qed.

Lemma split_cons_other c x s :
  x <> c -> split c (x :: s) = (x :: hd [] (split c s)) :: tail (split c s).
Proof.
  intros Hx. simpl. apply N.eqb_neq in Hx. rewrite Hx.
  pose proof (split_nonempty c s). by destruct (split c s).
Qed.

Lemma is_digit_not_space c : is_digit c = true -> c <> 32.
Proof. unfold is_digit. intros H ->. done. Qed.

Lemma match_tracknum_has_tracknum title :
  match_tracknum title = true -> has_tracknum title.
Proof.
  unfold match_tracknum, is_track_sep.
  destruct title as [|d [|c r]]; try done; simpl.
  - by rewrite andb_false_r.
  - intros [Hd H]%andb_prop. apply orb_prop in H as [H|H].
    + apply andb_prop in H as [Hc H]. destruct r as [|c' r]; [done|].
      exists [d; c], c', r. repeat split; auto.
      apply orb_prop in H as [H|H]; apply N.eqb_eq in H; auto.
    + exists [d], c, r. repeat split; auto.
      apply orb_prop in H as [H|H]; apply N.eqb_eq in H; auto.
Qed.

(** ** C5: [stdtrack] *)

(** C5, as the code has it: a title that begins with one or two ASCII
    digits and a space loses the digits and the space and keeps the rest
    unchanged; a title that does not begin with one or two digits and a
    hyphen or a space is returned unchanged; and "12 - Song Title" becomes
    "- Song Title", "Song Title" stays. *)
Theorem stdtrack_strips_number_and_space (d rest title : pystr) :
  (length d = 1 \/ length d = 2)%nat ->
  Forall (fun c => is_digit c = true) d ->
  ~ has_tracknum title ->
  stdtrack (d ++ 32 :: rest) = rest
  /\ stdtrack title = title
  /\ stdtrack (py "12 - Song Title") = py "- Song Title"
  /\ stdtrack (py "Song Title") = py "Song Title".
Proof.
  intros Hlen Hd Hno. repeat split; try reflexivity.
  - unfold stdtrack.
    destruct d as [|d1 [|d2 [|d3 d]]]; simpl in Hlen; try lia.
    + apply Forall_cons in Hd as [H1 _].
      change (match_tracknum ([d1] ++ 32 :: rest)) with (is_digit d1 && true).
      rewrite H1. cbn [andb app].
      rewrite split_cons_other by by apply is_digit_not_space.
      cbn [tail]. change (split 32 (32 :: rest)) with ([] :: split 32 rest).
      cbn [tail]. apply (join_split 32).
    + apply Forall_cons in Hd as [H1 [H2 _]%Forall_cons].
      change (match_tracknum ([d1; d2] ++ 32 :: rest))
        with (is_digit d1 && (is_digit d2 && true || is_track_sep d2)).
      rewrite H1, H2. cbn [andb orb app].
      rewrite split_cons_other by by apply is_digit_not_space.
      cbn [tail]. rewrite split_cons_other by by apply is_digit_not_space.
      cbn [tail]. change (split 32 (32 :: rest)) with ([] :: split 32 rest).
      cbn [tail]. apply (join_split 32).
  - unfold stdtrack. destruct (match_tracknum title) eqn:E; [|done].
    destruct Hno. by apply match_tracknum_has_tracknum.
Qed.

Lemma stdtrack_strips_number_and_space_witness :
  (length [49; 50] = 1 \/ length [49; 50] = 2)%nat
  /\ Forall (fun c => is_digit c = true) [49; 50]
  /\ ~ has_tracknum (py "Song Title")
  /\ stdtrack ([49; 50] ++ 32 :: py "- Song Title") = py "- Song Title"
  /\ stdtrack (py "Song Title") = py "Song Title".
Proof.
  assert (H1 : (length [49; 50] = 1 \/ length [49; 50] = 2)%nat) by (right; reflexivity).
  assert (H2 : Forall (fun c => is_digit c = true) [49; 50])
    by (repeat constructor).
  assert (H3 : ~ has_tracknum (py "Song Title")).
  { intros (d & sep & rest & E & Hl & Hd & _).
    destruct d as [|c d]; [simpl in Hl; lia|].
    apply Forall_cons in Hd as [Hc _]. injection E as <- _. discriminate Hc. }
  pose proof (stdtrack_strips_number_and_space [49; 50] (py "- Song Title")
                (py "Song Title") H1 H2 H3) as (Ha & Hb & _).
  repeat split; assumption.
Defined.

(** The specification's example fails: the first space ends the token
    that is dropped, the hyphen after it stays. *)
Lemma stdtrack_example_keeps_hyphen :
  stdtrack (py "12 - Song Title") <> py "Song Title".
Proof. vm_compute. discriminate. Qed.

(** After a hyphen the title is cut at its first space all the same. *)
Example stdtrack_hyphen_separator :
  stdtrack (py "12-Song Title") = py "Title" /\ stdtrack (py "12-Song") = [].
Proof. split; reflexivity. Qed.

(** ** Strings: what [strstd] leaves behind *)

(** Case analysis on the comparisons of [c] with constants. *)
Ltac eqb_cases c :=
  repeat match goal with
  | |- context [c =? ?k] =>
      lazymatch goal with
      | H : (c =? k) = false |- _ => rewrite H
      | _ =>
          let E := fresh "E" in
          destruct (c =? k) eqn:E; [apply N.eqb_eq in E; subst c|]
      end
  end.

Lemma untouched_spec c :
  untouched c <->
  c <> 39 /\ c <> 38 /\ c <> 63 /\ c <> 44 /\ c <> 45 /\ c <> 33 /\ c <> 46
  /\ c <> 96 /\ c <> 32 /\ c <> 225 /\ c <> 233 /\ c <> 237 /\ c <> 243
  /\ c <> 250.
Proof.
  unfold untouched, rewritten. rewrite !not_elem_of_cons.
  pose proof (not_elem_of_nil c). tauto.
Qed.

Lemma clean_char_untouched c : Forall untouched (clean_char c).
Proof.
  unfold clean_char, unaccent. change (py "and") with [97; 110; 100].
  eqb_cases c; simpl;
    repeat first [apply List.Forall_nil | apply List.Forall_cons];
    try (apply untouched_spec; lia).
  apply untouched_spec.
  repeat match goal with H : (c =? _) = false |- _ => apply N.eqb_neq in H end.
  tauto.
Qed.

Lemma clean_char_fixed c : untouched c -> clean_char c = [c].
Proof.
  intros H%untouched_spec. unfold clean_char, unaccent.
  eqb_cases c; try reflexivity; exfalso; lia.
Qed.

Lemma flat_map_clean_char_fixed s :
  Forall untouched s -> flat_map clean_char s = s.
Proof.
  induction 1 as [|c s Hc _ IH]; simpl; [done|].
  by rewrite (clean_char_fixed c Hc), IH.
Qed.

Lemma Forall_flat_map_clean_char s : Forall untouched (flat_map clean_char s).
Proof.
  induction s as [|c s IH]; simpl; [constructor|].
  apply Forall_app. split; [apply clean_char_untouched | done].
Qed.

Lemma Forall_replace_from (P : N -> Prop) old new k s :
  Forall P new -> Forall P s -> Forall P (replace_from old new k s).
Proof.
  intros Hnew Hs. revert k.
  induction Hs as [|c s Hc Hs IH]; intros k; simpl; [constructor|].
  destruct k; [|apply IH].
  destruct (starts_with old (c :: s)).
  - apply Forall_app. split; [done | apply IH].
  - constructor; [done | apply IH].
Qed.

Lemma Forall_replace (P : N -> Prop) old new s :
  old <> [] -> Forall P new -> Forall P s -> Forall P (replace old new s).
Proof.
  intros Hold Hnew Hs. destruct old; [done|]. by apply Forall_replace_from.
Qed.

Lemma replace_absent h old new s : h ∉ s -> replace (h :: old) new s = s.
Proof.
  unfold replace. induction s as [|c s IH]; simpl; [done|].
  intros [Hc Hs]%not_elem_of_cons.
  apply N.eqb_neq in Hc. rewrite Hc. simpl. by rewrite IH.
Qed.

Lemma Forall_before (P : N -> Prop) c s : Forall P s -> Forall P (before c s).
Proof.
  induction 1 as [|x s Hx _ IH]; simpl; [constructor|].
  destruct (x =? c); by constructor.
Qed.

Lemma before_not_in c s : c ∉ before c s.
Proof.
  induction s as [|x s IH]; simpl; [apply not_elem_of_nil|].
  destruct (N.eqb_spec x c); [apply not_elem_of_nil|].
  apply not_elem_of_cons. split; [congruence | done].
Qed.

Lemma before_fixed c s : c ∉ s -> before c s = s.
Proof.
  induction s as [|x s IH]; simpl; [done|].
  intros [Hx Hs]%not_elem_of_cons.
  destruct (N.eqb_spec x c); [congruence|]. by rewrite IH.
Qed.

(** The text that [strstd] hands to [lower]. *)
Lemma strstd_clean_untouched s :
  Forall untouched (strstd_clean s) /\ 40 ∉ strstd_clean s.
Proof.
  rewrite strstd_clean_chars. split; [|apply before_not_in].
  apply Forall_before, Forall_replace; [done| |apply Forall_flat_map_clean_char].
  repeat constructor; apply untouched_spec; vm_compute; repeat split; discriminate.
Qed.

(** [strstd] has nothing left to do on such a text without a capital T. *)
Lemma strstd_clean_fixed u :
  Forall untouched u -> 40 ∉ u -> 84 ∉ u -> strstd_clean u = u.
Proof.
  intros Hu H40 H84. rewrite strstd_clean_chars.
  rewrite flat_map_clean_char_fixed by done.
  change (py "Thirty") with (84 :: py "hirty").
  rewrite replace_absent by done. by apply before_fixed.
Qed.

(** ** Lowercasing of ASCII and Latin-1 *)

Ltac range_cases :=
  repeat match goal with
  | |- context [(?a <=? ?b) && (?c <=? ?d)] =>
      let E := fresh "E" in
      destruct ((a <=? b) && (c <=? d)) eqn:E;
      [ apply andb_true_iff in E as [?%N.leb_le ?%N.leb_le]
      | apply andb_false_iff in E as [?%N.leb_gt|?%N.leb_gt] ]
  | |- context [?a =? ?b] => destruct (N.eqb_spec a b)
  end; simpl.

Lemma latin1_lower_cp_idem c : latin1_lower_cp (latin1_lower_cp c) = latin1_lower_cp c.
Proof.
  unfold latin1_lower_cp at 2. range_cases; unfold latin1_lower_cp; range_cases; lia.
Qed.

Lemma latin1_lower_idem (s : pystr) : latin1_lower (latin1_lower s) = latin1_lower s.
Proof.
  unfold latin1_lower. rewrite <- list_fmap_compose.
  apply list_fmap_ext. intros _ c _. apply latin1_lower_cp_idem.
Qed.

Lemma stripped_spec x :
  x ∈ stripped <->
  x = 32 \/ x = 39 \/ x = 63 \/ x = 44 \/ x = 45 \/ x = 33 \/ x = 46
  \/ x = 96 \/ x = 38 \/ x = 40.
Proof.
  unfold stripped. rewrite !elem_of_cons.
  pose proof (not_elem_of_nil x). tauto.
Qed.

Lemma latin1_lower_stripped (s : pystr) x :
  x ∈ stripped -> x ∈ latin1_lower s -> x ∈ s.
Proof.
  intros Hx (y & -> & Hy)%list_elem_of_fmap.
  apply stripped_spec in Hx.
  assert (latin1_lower_cp y = y) as ->; [|done].
  revert Hx. unfold latin1_lower_cp. range_cases; lia.
Qed.

(** ** C4: [strstd] against the reference definition *)

Lemma canon_char_clean_char c : c <> 8217 -> canon_char c = clean_char c.
Proof.
  intros H%N.eqb_neq. unfold canon_char, clean_char.
  by rewrite H, orb_false_r.
Qed.

(** C4, as the code has it: on a text without the curly apostrophe U+2019,
    [strstd] is the reference definition with the space as the only
    whitespace removed and with the steps in this order: the rules on single
    characters (apostrophes, question marks, commas, hyphens, exclamation
    marks, periods, backticks and spaces removed, ampersand spelled out,
    the five accented vowels unaccented), then "Thirty" replaced by "30",
    then the cut at the first opening parenthesis, and the lowercasing last.
    "Song (Remix)" and "Song" are canonicalized alike. *)
Theorem strstd_is_canonicalize_ordered (lower : pystr -> pystr) (s : pystr) :
  8217 ∉ s ->
  strstd lower s = canonicalize_ordered lower s
  /\ strstd lower (py "Song (Remix)") = strstd lower (py "Song").
Proof.
  intros Hs. split.
  - unfold strstd, canonicalize_ordered. rewrite strstd_clean_chars.
    do 3 f_equal. induction s as [|c s IH]; [done|].
    apply not_elem_of_cons in Hs as [Hc Hs]. simpl.
    by rewrite IH, canon_char_clean_char.
  - unfold strstd. f_equal.
Qed.

Lemma strstd_is_canonicalize_ordered_witness :
  (8217 ∉ py "Thirty Days & Nights (live)")
  /\ strstd latin1_lower (py "Thirty Days & Nights (live)")
     = canonicalize_ordered latin1_lower (py "Thirty Days & Nights (live)").
Proof.
  assert (H : 8217 ∉ py "Thirty Days & Nights (live)").
  { intros H%list_elem_of_In. vm_compute in H. intuition discriminate. }
  split; [exact H|].
  exact (proj1 (strstd_is_canonicalize_ordered latin1_lower _ H)).
Defined.

(** The reference definition removes all whitespace, [strstd] keeps a tab. *)
Lemma strstd_keeps_tab :
  strstd latin1_lower [97; 9; 98] <> canonicalize latin1_lower [97; 9; 98].
Proof. vm_compute. discriminate. Qed.

(** ** C6: [strstd] twice *)

Lemma accented_spec x :
  x ∈ accented <-> x = 225 \/ x = 233 \/ x = 237 \/ x = 243 \/ x = 250.
Proof.
  unfold accented. rewrite !elem_of_cons.
  pose proof (not_elem_of_nil x). tauto.
Qed.

Lemma capital_accented_spec x :
  x ∈ capital_accented <-> x = 193 \/ x = 201 \/ x = 205 \/ x = 211 \/ x = 218.
Proof.
  unfold capital_accented. rewrite !elem_of_cons.
  pose proof (not_elem_of_nil x). tauto.
Qed.

Lemma clean_char_no_capital_accent c :
  c ∉ capital_accented -> Forall (fun x => x ∉ capital_accented) (clean_char c).
Proof.
  intros Hc. unfold clean_char, unaccent. change (py "and") with [97; 110; 100].
  eqb_cases c; simpl;
    repeat first [apply List.Forall_nil | apply List.Forall_cons];
    try done; rewrite capital_accented_spec; lia.
Qed.

(** [strstd] brings in no capital accented vowel. *)
Lemma strstd_clean_no_capital_accent s :
  (forall x, x ∈ capital_accented -> x ∉ s) ->
  Forall (fun x => x ∉ capital_accented) (strstd_clean s).
Proof.
  intros Hs. rewrite strstd_clean_chars.
  apply Forall_before, Forall_replace; [done| |].
  - repeat constructor; rewrite capital_accented_spec; vm_compute;
      intros H; repeat (destruct H as [H|H]; [discriminate H|]); discriminate H.
  - induction s as [|c s IH]; simpl; [constructor|].
    apply Forall_app. split.
    + apply clean_char_no_capital_accent. intros Hc.
      apply (Hs c Hc). by left.
    + apply IH. intros x Hx Hin. apply (Hs x Hx). by right.
Qed.

(** C6, as the code has it: [strstd] is idempotent on every text that
    holds none of the capital accented vowels Á É Í Ó Ú.  Lowercasing is
    taken to be idempotent, to bring in none of the characters that
    [strstd] removes or spells out, to bring in an accented vowel only
    from the vowel itself or from its capital, and to leave no capital T. *)
Theorem strstd_idempotent_without_capital_accents (lower : pystr -> pystr)
    (s : pystr) :
  (forall t, lower (lower t) = lower t) ->
  (forall (t : pystr) x, x ∈ stripped -> x ∈ lower t -> x ∈ t) ->
  (forall (t : pystr) x, x ∈ accented -> x ∈ lower t -> x ∈ t \/ x - 32 ∈ t) ->
  (forall t : pystr, 84 ∉ lower t) ->
  (forall x, x ∈ capital_accented -> x ∉ s) ->
  strstd lower (strstd lower s) = strstd lower s.
Proof.
  intros Hidem Hstripped Haccented HT Hs.
  destruct (strstd_clean_untouched s) as [Hu H40].
  pose proof (strstd_clean_no_capital_accent s Hs) as Hcap.
  rewrite Forall_forall in Hu, Hcap.
  assert (strstd_clean (lower (strstd_clean s)) = lower (strstd_clean s)) as Hfix.
  { apply strstd_clean_fixed.
    - apply Forall_forall. intros x Hx. apply untouched_spec.
      destruct (decide (x ∈ stripped)) as [Hin|Hout].
      + apply (Hstripped _ _ Hin), Hu, untouched_spec in Hx. exact Hx.
      + destruct (decide (x ∈ accented)) as [Hin|Hout'].
        * destruct (Haccented _ _ Hin Hx) as [Hy|Hy].
          -- apply Hu, untouched_spec in Hy. exact Hy.
          -- apply Hcap in Hy. destruct Hy.
             apply accented_spec in Hin. apply capital_accented_spec.
             destruct Hin as [->|[->|[->|[->| ->]]]]; vm_compute; tauto.
        * rewrite stripped_spec in Hout. rewrite accented_spec in Hout'. lia.
    - intros H. apply Hstripped in H; [exact (H40 H)|]. apply stripped_spec. tauto.
    - apply HT. }
  unfold strstd. rewrite Hfix. apply Hidem.
Qed.

Lemma latin1_lower_accented (t : pystr) x :
  x ∈ accented -> x ∈ latin1_lower t -> x ∈ t \/ x - 32 ∈ t.
Proof.
  intros Hx (y & -> & Hy)%list_elem_of_fmap.
  apply accented_spec in Hx. revert Hx. unfold latin1_lower_cp.
  range_cases; intros Hx; try lia.
  - right. replace (y + 32 - 32) with y by lia. done.
  - by left.
Qed.

Lemma latin1_lower_no_capital_T (t : pystr) : 84 ∉ latin1_lower t.
Proof.
  intros (y & Hy & _)%list_elem_of_fmap. revert Hy.
  unfold latin1_lower_cp. range_cases; lia.
Qed.

Lemma strstd_idempotent_without_capital_accents_witness :
  (forall t, latin1_lower (latin1_lower t) = latin1_lower t)
  /\ (forall (t : pystr) x, x ∈ stripped -> x ∈ latin1_lower t -> x ∈ t)
  /\ (forall (t : pystr) x, x ∈ accented -> x ∈ latin1_lower t -> x ∈ t \/ x - 32 ∈ t)
  /\ (forall t : pystr, 84 ∉ latin1_lower t)
  /\ (forall x, x ∈ capital_accented ->
        x ∉ py "Caf" ++ [233] ++ py " & Bj" ++ [246] ++ py "rk - Thirty (Live)")
  /\ strstd latin1_lower
       (strstd latin1_lower
          (py "Caf" ++ [233] ++ py " & Bj" ++ [246] ++ py "rk - Thirty (Live)"))
     = strstd latin1_lower
         (py "Caf" ++ [233] ++ py " & Bj" ++ [246] ++ py "rk - Thirty (Live)").
Proof.
  assert (H : forall x, x ∈ capital_accented ->
            x ∉ py "Caf" ++ [233] ++ py " & Bj" ++ [246] ++ py "rk - Thirty (Live)").
  { intros x Hx%capital_accented_spec.
    destruct Hx as [->|[->|[->|[->| ->]]]];
      apply (bool_decide_unpack _); vm_compute; exact I. }
  split; [exact latin1_lower_idem|]. split; [exact latin1_lower_stripped|].
  split; [exact latin1_lower_accented|]. split; [exact latin1_lower_no_capital_T|].
  split; [exact H|].
  exact (strstd_idempotent_without_capital_accents latin1_lower _
           latin1_lower_idem latin1_lower_stripped latin1_lower_accented
           latin1_lower_no_capital_T H).
Defined.

(** A capital accented vowel is lowercased by the first pass and unaccented
    only by the second. *)
Lemma strstd_not_idempotent :
  strstd latin1_lower (strstd latin1_lower [193]) <> strstd latin1_lower [193].
Proof. vm_compute. discriminate. Qed.

(** ** C10: the key of a track *)

(** C10: the key of a track holds none of space, apostrophe, question
    mark, comma, hyphen, exclamation mark, period, backtick, ampersand and
    opening parenthesis, it is its own lowercasing, and tracks built from
    the same artist, album and title have the same key.  Lowercasing is
    taken to be idempotent and to bring in none of these characters. *)
Theorem Track_key_invariant (lower : pystr -> pystr)
    (a b t a' b' t' : pystr) (c : N) :
  (forall s, lower (lower s) = lower s) ->
  (forall (s : pystr) x, x ∈ stripped -> x ∈ lower s -> x ∈ s) ->
  c ∈ stripped ->
  (c ∉ key (Track_init lower a b t))
  /\ lower (key (Track_init lower a b t)) = key (Track_init lower a b t)
  /\ (Track_eq_strict (Track_init lower a b t) (Track_init lower a' b' t') = true ->
      Track_eq (Track_init lower a b t) (Track_init lower a' b' t') = true).
Proof.
  intros Hidem Hkeep Hc. cbn [key Track_init]. unfold strstd.
  repeat split.
  - intros Hin. apply (Hkeep _ _ Hc) in Hin.
    destruct (strstd_clean_untouched (a ++ b ++ stdtrack t)) as [Hu H40].
    rewrite Forall_forall in Hu. specialize (Hu c).
    apply stripped_spec in Hc.
    destruct (decide (c = 40)) as [->|Hne]; [done|].
    apply Hu in Hin. apply untouched_spec in Hin. lia.
  - apply Hidem.
  - unfold Track_eq_strict, Track_eq. cbn [artist album title key Track_init].
    rewrite !andb_true_iff, !bool_decide_eq_true.
    intros [[-> ->] ->]. done.
Qed.

Lemma Track_key_invariant_witness :
  (forall s, latin1_lower (latin1_lower s) = latin1_lower s)
  /\ (forall (s : pystr) x, x ∈ stripped -> x ∈ latin1_lower s -> x ∈ s)
  /\ (45 ∈ stripped)
  /\ (45 ∉ key (Track_init latin1_lower (py "AC-DC") (py "Back in Black") (py "01 Hells Bells")))
  /\ Track_eq (Track_init latin1_lower (py "AC-DC") (py "Back in Black") (py "01 Hells Bells"))
              (Track_init latin1_lower (py "AC-DC") (py "Back in Black") (py "01 Hells Bells"))
     = true.
Proof.
  assert (H : 45 ∈ stripped) by (apply stripped_spec; tauto).
  pose proof (Track_key_invariant latin1_lower
    (py "AC-DC") (py "Back in Black") (py "01 Hells Bells")
    (py "AC-DC") (py "Back in Black") (py "01 Hells Bells") 45
    latin1_lower_idem latin1_lower_stripped H) as (H1 & _ & H3).
  split; [exact latin1_lower_idem|].
  split; [exact latin1_lower_stripped|].
  split; [exact H|]. split; [exact H1|].
  apply H3. reflexivity.
Defined.

Local Close Scope N_scope.

(** ** Integers and bytes *)

Lemma byte_of_Z_value z : Z.of_N (Byte.to_N (byte_of_Z z)) = (z mod 256)%Z.
Proof.
  unfold byte_of_Z.
  pose proof (Z.mod_pos_bound z 256 eq_refl) as Hb.
  destruct (Byte.of_N (Z.to_N (z mod 256))) as [b|] eqn:E; simpl.
  - apply Byte.to_of_N in E. rewrite E. lia.
  - apply Byte.of_N_None_iff in E. lia.
Qed.

Lemma as_bytes_ok v :
  (0 <= v < 2 ^ 32)%Z ->
  as_bytes v = Ok [byte_of_Z v; byte_of_Z (v / 2 ^ 8);
                   byte_of_Z (v / 2 ^ 16); byte_of_Z (v / 2 ^ 24)].
Proof.
  intros Hv. unfold as_bytes.
  destruct (Z.leb_spec 0 v); [|lia]. destruct (Z.ltb_spec v (2 ^ 32)); [done|lia].
Qed.

Lemma as_int_as_bytes v bs : as_bytes v = Ok bs -> as_int bs = v /\ length bs = 4.
Proof.
  unfold as_bytes.
  destruct (Z.leb_spec 0 v); [|done]. destruct (Z.ltb_spec v (2 ^ 32)); [|done].
  intros [= <-]. split; [|done]. cbn [as_int].
  rewrite !byte_of_Z_value.
  change (2 ^ 8)%Z with 256%Z. change (2 ^ 16)%Z with 65536%Z.
  change (2 ^ 24)%Z with 16777216%Z. change (2 ^ 32)%Z with 4294967296%Z in *.
  Z.div_mod_to_equations. lia.
Qed.

Lemma as_bytes_overflow v : ~ (0 <= v < 2 ^ 32)%Z -> as_bytes v = Error OverflowError.
Proof.
  intros Hv. unfold as_bytes.
  destruct (Z.leb_spec 0 v); [|done]. destruct (Z.ltb_spec v (2 ^ 32)); [lia|done].
Qed.

(** ** The frame of the operations on an [RBDB] *)

Lemma same_stores_refl db : same_stores db db.
Proof. by constructor. Qed.

Lemma same_stores_trans db1 db2 db3 :
  same_stores db1 db2 -> same_stores db2 db3 -> same_stores db1 db3.
Proof.
  intros [] []. constructor; try congruence.
  intros j Hj. rewrite ss_tags1 by done. auto.
Qed.

Create HintDb frame.

Lemma frames_ret {A} (a : A) : frames (ret a).
Proof. intros db. split; [apply same_stores_refl | done]. Qed.

Lemma frames_raise {A} e : frames (@raise A e).
Proof. intros db. split; [apply same_stores_refl | done]. Qed.

Lemma frames_lift {A} (r : result A) : frames (lift r).
Proof. intros db. split; [apply same_stores_refl | done]. Qed.

Lemma frames_gets {A} (f : RBDB -> A) : frames (gets f).
Proof. intros db. split; [apply same_stores_refl | done]. Qed.

Lemma frames_data i : frames (data i).
Proof. intros db. split; [apply same_stores_refl | done]. Qed.

Lemma frames_bind {A B} (m : M A) (k : A -> M B) :
  frames m -> (forall a, frames (k a)) -> frames (bind m k).
Proof.
  intros Hm Hk db. unfold bind.
  destruct (Hm db) as [H1 H2]. destruct (m db) as [[a|e] db1]; simpl in *.
  - destruct (Hk a db1) as [H3 H4]. split; [|congruence].
    by eapply same_stores_trans.
  - done.
Qed.

Lemma frames_setitem_idx i v : frames (setitem_idx i v).
Proof.
  intros db. unfold setitem_idx, bind, data, getitem, modify, raise.
  destruct (datas db !! IDX) as [d|] eqn:E; simpl.
  - case_bool_decide; simpl; [|split; [apply same_stores_refl | done]].
    split; [|done]. constructor; simpl; try done.
    + intros j Hj. by rewrite lookup_insert_ne.
    + by rewrite lookup_insert_eq, E; simpl; rewrite length_insert.
  - split; [apply same_stores_refl | done].
Qed.

#[export] Hint Resolve frames_ret frames_raise frames_lift frames_gets
  frames_data frames_setitem_idx : frame.
#[export] Hint Extern 2 (frames (bind _ _)) => apply frames_bind; [|intros ?] : frame.
#[export] Hint Extern 2 (frames (if ?b then _ else _)) => destruct b : frame.
#[export] Hint Extern 2 (frames (match ?o with Some _ => _ | None => _ end)) =>
  destruct o : frame.

Lemma frames_write_bytes offset x bs : frames (write_bytes offset x bs).
Proof.
  revert x. induction bs as [|b bs IH]; intros x; simpl; auto with frame.
Qed.
#[export] Hint Resolve frames_write_bytes : frame.

Lemma frames_update_numeric_field index name v :
  frames (update_numeric_field index name v).
Proof. unfold update_numeric_field. auto 10 with frame. Qed.

Lemma frames_get_numeric_field index name : frames (get_numeric_field index name).
Proof. unfold get_numeric_field. auto 10 with frame. Qed.
#[export] Hint Resolve frames_update_numeric_field frames_get_numeric_field : frame.

Lemma frames_update_entry index playcount update_playtime :
  frames (update_entry index playcount update_playtime).
Proof. unfold update_entry, self_index. auto 10 with frame. Qed.
#[export] Hint Resolve frames_update_entry : frame.

Lemma frames_get_string tagidx offset : frames (_get_string_at_offset tagidx offset).
Proof. unfold _get_string_at_offset. auto 10 with frame. Qed.
#[export] Hint Resolve frames_get_string : frame.

Lemma frames_entry_loop entry_offset items values :
  frames (entry_loop entry_offset items values).
Proof.
  revert values. induction items as [|[name pos] items IH]; intros values;
    cbn [entry_loop]; auto 10 with frame.
Qed.
#[export] Hint Resolve frames_entry_loop : frame.

Lemma frames_entry entry_offset : frames (entry entry_offset).
Proof. unfold entry. auto with frame. Qed.
#[export] Hint Resolve frames_entry : frame.

Lemma frames_keeps_string_tables {A} (m : M A) : frames m -> keeps_string_tables m.
Proof. intros H db j Hj. by apply (H db). Qed.

Lemma next_entry_unfold db :
  next_entry db =
  match entry (cur_offset db) db with
  | (Ok e, db1) => (Ok e, set_cur_offset (cur_offset db1 + ENTRY_LEN) db1)
  | (Error e, db1) => (Error e, db1)
  end.
Proof.
  unfold next_entry, bind, gets, modify, ret; simpl.
  by destruct (entry (cur_offset db) db) as [[e|e] db1].
Qed.

Lemma next_entry_keeps_string_tables : keeps_string_tables next_entry.
Proof.
  intros db j Hj. rewrite next_entry_unfold.
  destruct (frames_entry (cur_offset db) db) as [H _].
  destruct (entry (cur_offset db) db) as [[e|e] db1]; simpl in *; by apply H.
Qed.

(** ** C9: the effect of [update_numeric_field] *)

Lemma set_datas_id db d : datas db !! IDX = Some d ->
  set_datas (<[IDX := d]> (datas db)) db = db.
Proof. intros H. unfold set_datas. rewrite insert_id by done. by destruct db. Qed.

Lemma setitem_idx_ok db d i v :
  datas db !! IDX = Some d -> i < length d ->
  setitem_idx i v db = (Ok tt, set_datas (<[IDX := <[i := v]> d]> (datas db)) db).
Proof.
  intros Hd Hi. unfold setitem_idx, bind, data, getitem. rewrite Hd.
  by rewrite bool_decide_eq_true_2.
Qed.

Lemma setitem_idx_out_of_range db d i v :
  datas db !! IDX = Some d -> length d <= i ->
  setitem_idx i v db = (Error IndexError, db).
Proof.
  intros Hd Hi. unfold setitem_idx, bind, data, getitem. rewrite Hd.
  rewrite bool_decide_eq_false_2 by lia. done.
Qed.

Lemma write_bytes_ok bs : forall offset x db d,
  datas db !! IDX = Some d -> offset + x + length bs <= length d ->
  write_bytes offset x bs db
  = (Ok tt, set_datas (<[IDX := list_inserts (offset + x) bs d]> (datas db)) db).
Proof.
  induction bs as [|b bs IH]; intros offset x db d Hd Hlen; simpl in *.
  - by rewrite set_datas_id.
  - unfold bind. rewrite (setitem_idx_ok db d) by (done || lia).
    erewrite IH; cycle 1.
    + simpl. apply lookup_insert_eq.
    + rewrite length_insert. lia.
    + simpl. rewrite insert_insert_eq, Nat.add_succ_r.
      by rewrite list_insert_inserts_lt by lia.
Qed.

Lemma slice_inserts (bs d : list byte) i :
  i + length bs <= length d ->
  slice (list_inserts i bs d) i (i + length bs) = bs.
Proof.
  intros Hlen. unfold slice. apply list_eq. intros k.
  destruct (decide (k < length bs)) as [Hk|Hk].
  - rewrite lookup_take_lt by lia. rewrite lookup_drop.
    rewrite list_lookup_inserts by lia. f_equal. lia.
  - rewrite lookup_take_ge by lia. symmetry. apply lookup_ge_None. lia.
Qed.

(** C9: with the offset inside the buffer, a known field name and a value
    of 32 bits, [update_numeric_field] succeeds; the index buffer keeps its
    length, the four bytes at [index + position * 4] are the little-endian
    bytes of the value, every other byte of the index buffer is as before,
    and so is every string table.  No operation changes a string table
    buffer. *)
Theorem update_numeric_field_frame (db : RBDB) (buf : list byte)
    (index : nat) (field_name : string) (pos : nat) (v : Z) :
  datas db !! IDX = Some buf ->
  position field_name = Ok pos ->
  index + pos * 4 + 4 <= length buf ->
  (0 <= v < 2 ^ 32)%Z ->
  exists buf',
    update_numeric_field index field_name v db
      = (Ok tt, set_datas (<[IDX := buf']> (datas db)) db)
    /\ length buf' = length buf
    /\ as_bytes v = Ok (slice buf' (index + pos * 4) (index + pos * 4 + 4))
    /\ (forall i, ~ (index + pos * 4 <= i < index + pos * 4 + 4) -> buf' !! i = buf !! i)
    /\ (forall j, j <> IDX -> (<[IDX := buf']> (datas db)) !! j = datas db !! j)
    /\ (forall index' name' v', keeps_string_tables (update_numeric_field index' name' v'))
    /\ (forall index' playcount update_playtime,
          keeps_string_tables (update_entry index' playcount update_playtime))
    /\ keeps_string_tables next_entry.
Proof.
  intros Hd Hpos Hlen Hv.
  set (offset := index + pos * 4) in *.
  set (bs := [byte_of_Z v; byte_of_Z (v / 2 ^ 8);
              byte_of_Z (v / 2 ^ 16); byte_of_Z (v / 2 ^ 24)]).
  exists (list_inserts offset bs buf). repeat split.
  - unfold update_numeric_field, bind, lift. rewrite Hpos, (as_bytes_ok v Hv).
    fold offset. fold bs. rewrite (write_bytes_ok bs offset 0 db buf Hd) by (simpl; lia).
    by rewrite Nat.add_0_r.
  - apply length_inserts.
  - rewrite (as_bytes_ok v Hv). f_equal. fold bs.
    change 4 with (length bs). by rewrite slice_inserts.
  - intros i Hi. destruct (decide (i < offset)).
    + by apply list_lookup_inserts_lt.
    + apply list_lookup_inserts_ge. simpl. lia.
  - intros j Hj. by rewrite lookup_insert_ne.
  - intros. apply frames_keeps_string_tables. auto with frame.
  - intros. apply frames_keeps_string_tables. auto with frame.
  - apply next_entry_keeps_string_tables.
Qed.

(** ** C8: [commit] after [RBDB.__init__] *)

Lemma str_of_file_index_inj i j :
  i ∈ file_indexes -> j ∈ file_indexes ->
  str_of_file_index i = str_of_file_index j -> i = j.
Proof.
  unfold file_indexes. rewrite !elem_of_cons.
  pose proof (not_elem_of_nil i). pose proof (not_elem_of_nil j).
  intros Hi Hj.
  repeat (destruct Hi as [->|Hi]); try tauto;
    repeat (destruct Hj as [->|Hj]); try tauto;
    intros E; try reflexivity; vm_compute in E; discriminate E.
Qed.

Lemma database_path_inj root i j :
  i ∈ file_indexes -> j ∈ file_indexes ->
  database_path root i = database_path root j -> i = j.
Proof.
  intros Hi Hj E. unfold database_path in E.
  apply app_inv_head, app_inv_head, app_inv_tail in E.
  by apply str_of_file_index_inj.
Qed.

Lemma init_loop_spec md5 root w indexes : forall self db,
  init_loop md5 root w indexes self = Ok db ->
  (forall i, i ∈ indexes -> loaded_store md5 root w db i)
  /\ (forall i, i ∉ indexes ->
        paths db !! i = paths self !! i /\ datas db !! i = datas self !! i
        /\ checksums db !! i = checksums self !! i).
Proof.
  induction indexes as [|i indexes IH]; intros self db; simpl.
  - intros [= <-]. split; [|done]. intros i Hi. by apply elem_of_nil in Hi.
  - unfold read_file.
    destruct (files w !! database_path root i) as [content|] eqn:Hf; [|done].
    intros Hloop. apply IH in Hloop as [Hin Hout]. split.
    + intros j Hj.
      destruct (decide (j ∈ indexes)) as [Hj'|Hj']; [by apply Hin|].
      apply elem_of_cons in Hj as [->|Hj]; [|done].
      destruct (Hout i Hj') as (Hp & Hd & Hc). simpl in *.
      exists content. rewrite Hp, Hd, Hc, !lookup_insert_eq. done.
    + intros j [Hne Hj]%not_elem_of_cons.
      destruct (Hout j Hj) as (Hp & Hd & Hc). simpl in *.
      rewrite Hp, Hd, Hc, !lookup_insert_ne by done. done.
Qed.

Lemma RBDB_init_spec md5 root w db :
  RBDB_init md5 root w = Ok db ->
  cur_offset db = 24
  /\ forall i, i ∈ file_indexes -> loaded_store md5 root w db i.
Proof.
  unfold RBDB_init.
  destruct (init_loop md5 root w file_indexes _) as [self|] eqn:Hloop; [|done].
  destruct (getitem (datas self) IDX) as [idx|]; [|done].
  intros [= <-]. split; [done|]. intros i Hi.
  apply init_loop_spec in Hloop as [Hin _].
  destruct (Hin i Hi) as (c & ? & ? & ? & ?). by exists c.
Qed.

Section Commit.

Variable md5 : list byte -> pystr.
Variable root : pystr.

Lemma commit_loop_spec (orig : gmap file_index (list byte)) (self : RBDB) indexes :
  (forall i, i ∈ indexes ->
     i ∈ file_indexes
     /\ paths self !! i = Some (database_path root i)
     /\ is_Some (datas self !! i)
     /\ checksums self !! i = md5 <$> orig !! i
     /\ is_Some (orig !! i)) ->
  forall w, exists w',
    commit_loop md5 self (omap (fun i => pair i <$> datas self !! i) indexes) w
      = (Ok tt, w')
    /\ written w' = written w ++ (database_path root <$> changed_stores md5 orig self indexes)
    /\ (forall i, i ∈ changed_stores md5 orig self indexes ->
          files w' !! database_path root i = datas self !! i)
    /\ (forall p, p ∉ database_path root <$> changed_stores md5 orig self indexes ->
          files w' !! p = files w !! p).
Proof.
  unfold changed_stores.
  induction indexes as [|i indexes IH]; intros Hall w.
  - exists w. simpl. rewrite app_nil_r. repeat split; try done.
    intros i Hi. by apply elem_of_nil in Hi.
  - destruct (Hall i) as (Hi & Hp & [d Hd] & Hc & [c Ho]); [by left|].
    assert (forall j, j ∈ indexes ->
      j ∈ file_indexes
      /\ paths self !! j = Some (database_path root j)
      /\ is_Some (datas self !! j)
      /\ checksums self !! j = md5 <$> orig !! j
      /\ is_Some (orig !! j)) as Hall' by (intros j Hj; apply Hall; by right).
    cbn [omap list_omap]. rewrite Hd. cbn [fmap option_fmap option_map commit_loop].
    unfold getitem. rewrite Hc, Ho. cbn [fmap option_fmap option_map].
    rewrite filter_cons. rewrite Hd, Ho. cbn [fmap option_fmap option_map].
    case_bool_decide as Hsum.
    + rewrite decide_True by congruence.
      unfold overwrite, getitem. rewrite Hp, Hd.
      destruct (IH Hall' (write_file (database_path root i) d w))
        as (w' & Hrun & Hw & Hin & Hout).
      exists w'. split; [done|]. split; [|split].
      * rewrite Hw. simpl. by rewrite <- app_assoc.
      * intros j Hj.
        destruct (decide (j ∈ filter (fun i => md5 <$> datas self !! i <> md5 <$> orig !! i) indexes))
          as [Hj'|Hj']; [by apply Hin|].
        apply elem_of_cons in Hj as [->|Hj]; [|done].
        rewrite Hout, Hd; [simpl; apply lookup_insert_eq|].
        intros (k & Hk & Hkin)%list_elem_of_fmap.
        apply database_path_inj in Hk; [by subst k|done|].
        apply list_elem_of_filter in Hkin as [_ Hkin]. by apply Hall'.
      * intros p Hp'. rewrite fmap_cons in Hp'.
        apply not_elem_of_cons in Hp' as [Hne Hp'].
        rewrite Hout by done. simpl. by rewrite lookup_insert_ne.
    + rewrite decide_False by (intros H; apply H; congruence).
      apply IH, Hall'.
Qed.

End Commit.

(** C8: after [RBDB.__init__], [commit] without a change of any buffer
    writes no file; and in whatever way the buffers were changed since,
    [commit] writes the stores whose hash is no more the one taken at load,
    each with its present content, in the order of [file_indexes], and
    leaves every other file as it was. *)
Theorem commit_flushes_changed_stores (md5 : list byte -> pystr) (root : pystr)
    (w : World) (db db' : RBDB) (w' : World) :
  RBDB_init md5 root w = Ok db ->
  paths db' = paths db ->
  checksums db' = checksums db ->
  (forall i, i ∈ file_indexes -> is_Some (datas db' !! i)) ->
  commit md5 db w' = (Ok tt, w')
  /\ exists w'',
       commit md5 db' w' = (Ok tt, w'')
       /\ written w'' = written w'
            ++ (database_path root <$> changed_stores md5 (datas db) db' file_indexes)
       /\ (forall i, i ∈ changed_stores md5 (datas db) db' file_indexes ->
             files w'' !! database_path root i = datas db' !! i)
       /\ (forall p, p ∉ database_path root <$> changed_stores md5 (datas db) db' file_indexes ->
             files w'' !! p = files w' !! p)
       /\ (forall i, i ∈ file_indexes ->
             i ∉ changed_stores md5 (datas db) db' file_indexes ->
             files w'' !! database_path root i = files w' !! database_path root i).
Proof.
  intros Hinit Hpaths Hsums Hdatas.
  apply RBDB_init_spec in Hinit as [_ Hloaded].
  assert (forall self, paths self = paths db -> checksums self = checksums db ->
            (forall i, i ∈ file_indexes -> is_Some (datas self !! i)) ->
            forall i, i ∈ file_indexes ->
              i ∈ file_indexes
              /\ paths self !! i = Some (database_path root i)
              /\ is_Some (datas self !! i)
              /\ checksums self !! i = md5 <$> datas db !! i
              /\ is_Some (datas db !! i)) as Hpre.
  { intros self Hp Hc Hd i Hi.
    destruct (Hloaded i Hi) as (c & _ & Hpi & Hdi & Hci).
    rewrite Hp, Hc, Hpi, Hci, Hdi. repeat split; eauto. }
  assert (forall i, i ∈ file_indexes -> is_Some (datas db !! i)) as Hdb.
  { intros i Hi. destruct (Hloaded i Hi) as (c & _ & _ & -> & _). eauto. }
  split.
  - destruct (commit_loop_spec md5 root (datas db) db file_indexes
                (Hpre db eq_refl eq_refl Hdb) w') as (w'' & Hrun & Hw & _ & Hout).
    unfold commit, datas_items. rewrite Hrun. f_equal.
    assert (changed_stores md5 (datas db) db file_indexes = []) as Hnone.
    { unfold changed_stores. generalize file_indexes. intros l.
      induction l as [|i l IH]; [done|].
      rewrite filter_cons_False; [done|]. intros H. by apply H. }
    rewrite Hnone in Hw, Hout. simpl in *. rewrite app_nil_r in Hw.
    destruct w'' as [f l], w' as [f' l']; simpl in *. f_equal; [|done].
    apply map_eq. intros p. apply Hout, not_elem_of_nil.
  - destruct (commit_loop_spec md5 root (datas db) db' file_indexes
                (Hpre db' Hpaths Hsums Hdatas) w') as (w'' & Hrun & Hw & Hin & Hout).
    exists w''. repeat split; try done.
    intros i Hi Hni. apply Hout.
    intros (k & Hk & Hkin)%list_elem_of_fmap.
    apply database_path_inj in Hk; [by subst k|done|].
    by apply list_elem_of_filter in Hkin as [_ Hkin].
Qed.

(** ** C7: [next_entry] and [EOF] *)

Lemma data_ok db i d : datas db !! i = Some d -> data i db = (Ok d, db).
Proof. intros H. unfold data, getitem. by rewrite H. Qed.


Lemma positions_NoDup : NoDup positions.*1.
Proof. apply (bool_decide_unpack _). by vm_compute. Qed.

Lemma slice_past_end {A} (b : list A) i j : length b <= i -> slice b i j = [].
Proof. intros H. unfold slice. by rewrite drop_ge, take_nil. Qed.



(** ** The import loop *)

Section ImportLoop.

Variable lower : pystr -> pystr.
Variable md5 : list byte -> pystr.

Lemma update_entry_playcount_raises db index v update_playtime :
  update_entry index (Some v) update_playtime db = (Error AttributeError, db).
Proof. reflexivity. Qed.

Lemma frames_import_entry lastfm done missing e :
  frames (import_entry lower lastfm done missing e).
Proof. unfold import_entry. auto 20 with frame. Qed.

Lemma import_step_progress lastfm done missing db buf :
  datas db !! IDX = Some buf ->
  match import_step lower lastfm done missing db with
  | (Ok _, db') =>
      cur_offset db' = cur_offset db + 96
      /\ length <$> datas db' !! IDX = Some (length buf)
  | (Error _, _) => True
  end.
Proof.
  intros Hidx. unfold import_step, bind. rewrite next_entry_unfold.
  destruct (frames_entry (cur_offset db) db) as [Hs Hc].
  destruct (entry (cur_offset db) db) as [[e|err] db1]; [|done]. simpl in *.
  set (db2 := set_cur_offset (cur_offset db1 + ENTRY_LEN) db1).
  destruct (frames_import_entry lastfm done missing e db2) as [Hs' Hc'].
  destruct (import_entry lower lastfm done missing e db2) as [[r|err] db3]; [|done].
  simpl in *. split.
  - rewrite Hc'. unfold db2. simpl. by rewrite Hc.
  - rewrite (ss_len _ _ Hs'). unfold db2. simpl.
    by rewrite (ss_len _ _ Hs), Hidx.
Qed.

(** The bound on the rounds is never reached. *)
Lemma import_loop_total lastfm fuel : forall done missing db buf,
  datas db !! IDX = Some buf ->
  length buf <= cur_offset db + 96 * fuel ->
  exists r db', import_loop lower (S fuel) lastfm done missing db = Some (r, db').
Proof.
  induction fuel as [|fuel IH]; intros done missing db buf Hidx Hlen;
    cbn [import_loop]; unfold EOF, bind, gets, ret;
    rewrite (data_ok db IDX buf Hidx); case_bool_decide as Hend; eauto.
  - lia.
  - pose proof (import_step_progress lastfm done missing db buf Hidx) as Hstep.
    destruct (import_step lower lastfm done missing db) as [[[d m]|err] db']; eauto.
    destruct Hstep as [Hcur Hl].
    destruct (datas db' !! IDX) as [buf'|] eqn:Hidx'; [|done].
    injection Hl as Hl.
    apply (IH d m db' buf' Hidx'). lia.
Qed.

Lemma import_loop_missing_index lastfm fuel done missing db :
  datas db !! IDX = None ->
  import_loop lower (S fuel) lastfm done missing db = Some (Error KeyError, db).
Proof.
  intros Hidx. cbn [import_loop]. unfold EOF, bind, gets, data, getitem.
  by rewrite Hidx.
Qed.

Lemma import_counts_raises lastfm db w :
  exists e db', import_counts lower md5 lastfm db w = Some (Error e, db', w).
Proof.
  unfold import_counts.
  destruct (datas db !! IDX) as [buf|] eqn:Hidx.
  - change (default [] (Some buf)) with buf.
    destruct (import_loop_total lastfm (length buf) 0%Z 0%Z db buf Hidx)
      as ([[d m]|e] & db' & ->); [lia| |]; eauto.
  - change (default [] None) with (@nil byte).
    rewrite import_loop_missing_index by done. eauto.
Qed.

End ImportLoop.

Ltac all_stores :=
  let i := fresh "i" in
  let Hi := fresh "Hi" in
  intros i Hi; unfold file_indexes in Hi;
  repeat (apply elem_of_cons in Hi as [->|Hi]);
  [ .. | apply elem_of_nil in Hi; destruct Hi ]; vm_compute; eexists; reflexivity.

Lemma loaded_one_track pc :
  pc = x00 \/ pc = x05 ->
  RBDB_init plain_digest example_root (one_track_world pc) = Ok (loaded (one_track_world pc)).
Proof. intros [->| ->]; vm_compute; reflexivity. Qed.

Lemma loaded_truncated :
  RBDB_init plain_digest example_root truncated_world = Ok (loaded truncated_world).
Proof. vm_compute. reflexivity. Qed.

(** ** C2: [update_entry] *)

(** C2 against the code: with a play count given, [update_entry] raises
    [AttributeError] on [self.index] before it touches the buffer, whatever
    the catalog, the offset and the value; PLAYCOUNT of the entry at offset
    24 stays 0 when 5 is asked for.  The recomputation alone works:
    PLAYCOUNT 5 and LEN 200 give PLAYTIME 1000. *)
Theorem update_entry_playcount_never_written :
  (forall db index v update_playtime,
     update_entry index (Some v) update_playtime db = (Error AttributeError, db))
  /\ field_of (loaded (one_track_world x00)) 24 "PLAYCOUNT" = Ok 0%Z
  /\ field_of (update_entry 24 (Some 5%Z) false (loaded (one_track_world x00))).2
       24 "PLAYCOUNT" = Ok 0%Z
  /\ (update_entry 24 (Some 5%Z) true (loaded (one_track_world x05))).1
       = Error AttributeError
  /\ (update_entry 24 None true (loaded (one_track_world x05))).1 = Ok tt
  /\ field_of (update_entry 24 None true (loaded (one_track_world x05))).2
       24 "PLAYTIME" = Ok 1000%Z.
Proof.
  split; [intros; apply update_entry_playcount_raises|].
  split; [vm_compute; reflexivity|]. split; [vm_compute; reflexivity|].
  split; [vm_compute; reflexivity|]. split; vm_compute; reflexivity.
Qed.

(** ** The import when the ledger counts more plays *)

(** The catalog holds one track by "a" with PLAYCOUNT 0, the ledger counts
    one play of it.  The loop of the import does not reach its end: it
    stops with the [AttributeError] of [update_entry], nothing is written,
    and PLAYCOUNT is still 0. *)
Lemma import_stops_on_larger_count :
  LastFM_exists one_play_ledger (Track_init latin1_lower (py "a") [] [])
    = Some (mk_row 1 (Track_init latin1_lower (py "a") [] []))
  /\ field_of (loaded (one_track_world x00)) 24 "PLAYCOUNT" = Ok 0%Z
  /\ import_counts latin1_lower plain_digest (Some one_play_ledger)
       (loaded (one_track_world x00)) (one_track_world x00)
     = Some (Error AttributeError,
             set_cur_offset 120 (loaded (one_track_world x00)),
             one_track_world x00)
  /\ field_of (set_cur_offset 120 (loaded (one_track_world x00))) 24 "PLAYCOUNT"
     = Ok 0%Z.
Proof.
  split; [vm_compute; reflexivity|]. split; [vm_compute; reflexivity|].
  split; vm_compute; reflexivity.
Qed.

(** ** C3: the end of the import *)

(** C3 against the code: the import never ends normally.  Whatever the
    catalog and the ledger, it ends in an exception and [commit] is not
    reached, so no file is written; on a catalog without entries and an
    empty ledger the exception is the [NameError] of the summary line. *)
Theorem import_counts_never_completes :
  (forall lower md5 lastfm db w,
     exists e db', import_counts lower md5 lastfm db w = Some (Error e, db', w))
  /\ import_counts latin1_lower plain_digest (Some ∅)
       (loaded empty_catalog_world) empty_catalog_world
     = Some (Error NameError, loaded empty_catalog_world, empty_catalog_world).
Proof.
  split; [|vm_compute; reflexivity].
  intros. apply import_counts_raises.
Qed.

(** ** Witnesses and counterexamples on the example databases *)

Lemma update_numeric_field_frame_witness :
  datas (loaded (one_track_world x05)) !! IDX
    = Some (example_header ++ example_entry xc8 x05)
  /\ position "PLAYTIME" = Ok 17
  /\ 24 + 17 * 4 + 4 <= length (example_header ++ example_entry xc8 x05)
  /\ (0 <= 1000 < 2 ^ 32)%Z
  /\ (update_numeric_field 24 "PLAYTIME" 1000 (loaded (one_track_world x05))).1 = Ok tt.
Proof.
  assert (H1 : datas (loaded (one_track_world x05)) !! IDX
               = Some (example_header ++ example_entry xc8 x05))
    by (vm_compute; reflexivity).
  assert (H2 : position "PLAYTIME" = Ok 17) by (vm_compute; reflexivity).
  assert (H3 : 24 + 17 * 4 + 4 <= length (example_header ++ example_entry xc8 x05))
    by (apply Nat.leb_le; vm_compute; reflexivity).
  assert (H4 : (0 <= 1000 < 2 ^ 32)%Z) by (split; [discriminate | reflexivity]).
  destruct (update_numeric_field_frame _ _ 24 "PLAYTIME" 17 1000%Z H1 H2 H3 H4)
    as (buf' & Hrun & _).
  split; [exact H1|]. split; [exact H2|]. split; [exact H3|]. split; [exact H4|].
  rewrite Hrun. reflexivity.
Defined.

Lemma commit_flushes_changed_stores_witness :
  RBDB_init plain_digest example_root (one_track_world x05)
    = Ok (loaded (one_track_world x05))
  /\ paths (update_entry 24 None true (loaded (one_track_world x05))).2
     = paths (loaded (one_track_world x05))
  /\ checksums (update_entry 24 None true (loaded (one_track_world x05))).2
     = checksums (loaded (one_track_world x05))
  /\ (forall i, i ∈ file_indexes ->
        is_Some (datas (update_entry 24 None true (loaded (one_track_world x05))).2 !! i))
  /\ commit plain_digest (loaded (one_track_world x05)) (one_track_world x05)
     = (Ok tt, one_track_world x05)
  /\ exists w'',
       commit plain_digest (update_entry 24 None true (loaded (one_track_world x05))).2
         (one_track_world x05) = (Ok tt, w'')
       /\ written w'' = [database_path example_root IDX].
Proof.
  assert (H1 : RBDB_init plain_digest example_root (one_track_world x05)
               = Ok (loaded (one_track_world x05))) by (vm_compute; reflexivity).
  assert (H2 : paths (update_entry 24 None true (loaded (one_track_world x05))).2
               = paths (loaded (one_track_world x05))) by (vm_compute; reflexivity).
  assert (H3 : checksums (update_entry 24 None true (loaded (one_track_world x05))).2
               = checksums (loaded (one_track_world x05))) by (vm_compute; reflexivity).
  assert (H4 : forall i, i ∈ file_indexes ->
            is_Some (datas (update_entry 24 None true (loaded (one_track_world x05))).2 !! i))
    by all_stores.
  destruct (commit_flushes_changed_stores plain_digest example_root _ _ _
              (one_track_world x05) H1 H2 H3 H4) as (Hsame & w'' & Hrun & Hw & _).
  split; [exact H1|]. split; [exact H2|]. split; [exact H3|]. split; [exact H4|].
  split; [exact Hsame|].
  exists w''. split; [exact Hrun|]. rewrite Hw. vm_compute. reflexivity.
Defined.



Local Open Scope N_scope.

(** ** More on [strstd] and [stdtrack] *)

Lemma dropped_clean_char c : c ∈ dropped -> clean_char c = [].
Proof.
  unfold dropped. rewrite !elem_of_cons.
  pose proof (not_elem_of_nil c).
  intros H'; repeat (destruct H' as [->|H']); try reflexivity. tauto.
Qed.

(** X1: a straight apostrophe, question mark, comma, hyphen, exclamation
    mark, period, backtick or space changes nothing in the result of
    [strstd], wherever it stands in the text. *)
Theorem strstd_ignores_dropped (lower : pystr -> pystr) (s t : pystr) (c : N) :
  c ∈ dropped ->
  strstd lower (s ++ c :: t) = strstd lower (s ++ t).
Proof.
  intros Hc. unfold strstd. f_equal. rewrite !strstd_clean_chars.
  rewrite !flat_map_app. cbn [flat_map].
  by rewrite (dropped_clean_char c Hc).
Qed.

Lemma strstd_ignores_dropped_witness :
  (45 ∈ dropped)
  /\ strstd latin1_lower (py "AC" ++ 45 :: py "DC") = strstd latin1_lower (py "AC" ++ py "DC").
Proof.
  assert (H : 45 ∈ dropped) by (unfold dropped; rewrite !elem_of_cons; tauto).
  split; [exact H|].
  exact (strstd_ignores_dropped latin1_lower (py "AC") (py "DC") 45 H).
Defined.

(** X2: [strstd] reads an ampersand as the word "and" and each of the
    vowels á é í ó ú as the plain vowel, wherever they stand. *)
Theorem strstd_spells_out (lower : pystr -> pystr) (s t : pystr) :
  strstd lower (s ++ py "&" ++ t) = strstd lower (s ++ py "and" ++ t)
  /\ strstd lower (s ++ 225 :: t) = strstd lower (s ++ py "a" ++ t)
  /\ strstd lower (s ++ 233 :: t) = strstd lower (s ++ py "e" ++ t)
  /\ strstd lower (s ++ 237 :: t) = strstd lower (s ++ py "i" ++ t)
  /\ strstd lower (s ++ 243 :: t) = strstd lower (s ++ py "o" ++ t)
  /\ strstd lower (s ++ 250 :: t) = strstd lower (s ++ py "u" ++ t).
Proof.
  unfold strstd. rewrite !strstd_clean_chars, !flat_map_app.
  repeat split; reflexivity.
Qed.

Lemma starts_with_before_paren old (u v : pystr) :
  40 ∉ old -> starts_with old (u ++ 40 :: v) = starts_with old u.
Proof.
  revert u. induction old as [|a old IH]; intros u Hold; [by destruct u|].
  apply not_elem_of_cons in Hold as [Ha Hold].
  destruct u as [|b u]; simpl.
  - destruct (N.eqb_spec a 40); [congruence | done].
  - by rewrite IH.
Qed.

Lemma starts_with_length old (u : pystr) :
  starts_with old u = true -> (length old <= length u)%nat.
Proof.
  revert u. induction old as [|a old IH]; intros [|b u]; simpl; try lia; try done.
  intros [_ H]%andb_prop. apply IH in H. lia.
Qed.

Lemma before_app c (a x : pystr) :
  c ∉ a -> before c (a ++ x) = a ++ before c x.
Proof.
  induction a as [|y a IH]; simpl; [done|].
  intros [Hy Ha]%not_elem_of_cons.
  destruct (N.eqb_spec y c); [congruence|]. by rewrite IH.
Qed.

Lemma before_app_in c (a x : pystr) :
  c ∈ a -> before c (a ++ x) = before c a.
Proof.
  induction a as [|y a IH]; simpl; [by intros ?%elem_of_nil|].
  intros [->|Ha]%elem_of_cons.
  - by rewrite N.eqb_refl.
  - destruct (y =? c); [done|]. by rewrite IH.
Qed.

Lemma before_app_congr c (a x y : pystr) :
  before c x = before c y -> before c (a ++ x) = before c (a ++ y).
Proof.
  intros H. destruct (decide (c ∈ a)).
  - by rewrite !before_app_in.
  - by rewrite !before_app, H.
Qed.

Lemma replace_from_before_paren old new (u v : pystr) : forall k,
  old <> [] -> 40 ∉ old -> (k <= length u)%nat ->
  before 40 (replace_from old new k (u ++ 40 :: v))
  = before 40 (replace_from old new k u).
Proof.
  intros k Hne Hold. revert k.
  induction u as [|c u IH]; intros k Hk.
  - simpl in Hk. assert (k = 0%nat) as -> by lia.
    destruct old as [|a old]; [done|].
    apply not_elem_of_cons in Hold as [Ha _]. simpl.
    destruct (N.eqb_spec a 40); [congruence|]. simpl. done.
  - change ((c :: u) ++ 40 :: v) with (c :: (u ++ 40 :: v)).
    cbn [replace_from]. destruct k as [|k]; [|apply IH; simpl in Hk; lia].
    change (c :: (u ++ 40 :: v)) with ((c :: u) ++ 40 :: v).
    rewrite (starts_with_before_paren old (c :: u) v Hold).
    destruct (starts_with old (c :: u)) eqn:Hs.
    + apply before_app_congr, IH.
      apply starts_with_length in Hs. simpl in Hs. lia.
    + simpl. destruct (c =? 40); [done|]. f_equal. apply IH. lia.
Qed.

(** X3: [strstd] ignores everything from the first opening parenthesis
    on, whatever follows it. *)
Theorem strstd_ignores_after_paren (lower : pystr -> pystr) (s x : pystr) :
  strstd lower (s ++ py "(" ++ x) = strstd lower s.
Proof.
  unfold strstd. f_equal. rewrite !strstd_clean_chars.
  rewrite flat_map_app. change (py "(") with [40]. cbn [app flat_map].
  change (clean_char 40) with [40]. cbn [app].
  change (py "Thirty") with (84 :: py "hirty"). unfold replace.
  apply replace_from_before_paren; [done| |lia].
  intros H%list_elem_of_In. vm_compute in H. intuition discriminate.
Qed.

Lemma join_tail_split c s : join [c] (tail (split c s)) = after c s.
Proof.
  induction s as [|x s IH]; simpl; [done|].
  pose proof (split_nonempty c s) as Hne.
  destruct (N.eqb_spec x c) as [->|Hx]; simpl.
  - apply join_split.
  - destruct (split c s) as [|w ws]; [done|]. simpl in *. done.
Qed.

Lemma has_tracknum_match_tracknum title :
  has_tracknum title -> match_tracknum title = true.
Proof.
  intros (d & sep & rest & -> & Hlen & Hd & Hsep).
  assert (is_track_sep sep = true) as Hs.
  { unfold is_track_sep. destruct Hsep as [-> | ->]; reflexivity. }
  destruct d as [|d1 [|d2 [|d3 d]]]; simpl in Hlen; try lia.
  - apply Forall_cons in Hd as [H1 _]. simpl. rewrite H1, Hs.
    by rewrite orb_true_r.
  - apply Forall_cons in Hd as [H1 [H2 _]%Forall_cons]. simpl.
    by rewrite H1, H2, Hs.
Qed.

(** X4: from a title that begins with one or two ASCII digits and a hyphen
    or a space, [stdtrack] keeps what follows the first space of the title,
    and nothing when the title holds no space; the result is never longer
    than the title. *)
Theorem stdtrack_cuts_at_first_space (title : pystr) :
  has_tracknum title ->
  stdtrack title = after 32 title
  /\ (32 ∉ title -> stdtrack title = [])
  /\ (length (stdtrack title) < length title)%nat.
Proof.
  intros H. unfold stdtrack. rewrite (has_tracknum_match_tracknum title H).
  change (py " ") with [32]. rewrite join_tail_split.
  assert (forall s : pystr, s <> [] -> (length (after 32 s) < length s)%nat) as Hlt.
  { induction s as [|x s IH]; [done|]. intros _. simpl.
    destruct (x =? 32); [lia|]. destruct s; [simpl; lia|].
    specialize (IH ltac:(done)). lia. }
  split; [done|]. split.
  - generalize title. induction title0 as [|x s IH]; [done|].
    intros [Hx Hs]%not_elem_of_cons. simpl.
    destruct (N.eqb_spec x 32); [congruence|]. by apply IH.
  - apply Hlt. destruct H as (d & sep & rest & -> & _). by destruct d.
Qed.

Lemma stdtrack_cuts_at_first_space_witness :
  has_tracknum (py "07-Hells Bells")
  /\ stdtrack (py "07-Hells Bells") = py "Bells".
Proof.
  assert (H : has_tracknum (py "07-Hells Bells")).
  { exists (py "07"), 45, (py "Hells Bells").
    split; [reflexivity|]. split; [right; reflexivity|].
    split; [repeat constructor | left; reflexivity]. }
  split; [exact H|].
  destruct (stdtrack_cuts_at_first_space _ H) as [-> _]. reflexivity.
Defined.

Local Close Scope N_scope.


(** ** More on integers and fields *)

Lemma byte_of_Z_of_byte z b :
  (z mod 256)%Z = Z.of_N (Byte.to_N b) -> byte_of_Z z = b.
Proof.
  intros H. unfold byte_of_Z. rewrite H, N2Z.id, Byte.of_to_N. done.
Qed.

Lemma byte_value_range b : (0 <= Z.of_N (Byte.to_N b) < 256)%Z.
Proof. pose proof (Byte.to_N_bounded b). lia. Qed.

Lemma as_int_nonneg bs : (0 <= as_int bs)%Z.
Proof.
  induction bs as [|b bs IH]; simpl; [lia|].
  pose proof (byte_value_range b). lia.
Qed.

Lemma as_bytes_as_int bs : length bs = 4 -> as_bytes (as_int bs) = Ok bs.
Proof.
  intros Hlen.
  destruct bs as [|b0 [|b1 [|b2 [|b3 [|b4 bs]]]]]; try discriminate Hlen.
  cbn [as_int].
  pose proof (byte_value_range b0). pose proof (byte_value_range b1).
  pose proof (byte_value_range b2). pose proof (byte_value_range b3).
  set (n0 := Z.of_N (Byte.to_N b0)) in *. set (n1 := Z.of_N (Byte.to_N b1)) in *.
  set (n2 := Z.of_N (Byte.to_N b2)) in *. set (n3 := Z.of_N (Byte.to_N b3)) in *.
  rewrite as_bytes_ok by (change (2 ^ 32)%Z with 4294967296%Z; lia).
  change (2 ^ 8)%Z with 256%Z. change (2 ^ 16)%Z with 65536%Z.
  change (2 ^ 24)%Z with 16777216%Z.
  do 2 f_equal; [|f_equal; [|f_equal; [|f_equal]]];
    apply byte_of_Z_of_byte; fold n0 n1 n2 n3;
    Z.div_mod_to_equations; lia.
Qed.

(** X5: [as_bytes] and [as_int] are inverse to each other on four bytes:
    [as_bytes v] returns [bs] exactly when [bs] has four bytes and
    [as_int bs] is [v]; it raises [OverflowError], and nothing else, exactly
    when [v] is negative or not below 2^32. *)
Theorem as_bytes_inverts_as_int (v : Z) (bs : list byte) :
  (as_bytes v = Ok bs <-> length bs = 4 /\ as_int bs = v)
  /\ (as_bytes v = Error OverflowError <-> ~ (0 <= v < 2 ^ 32)%Z)
  /\ (forall e, as_bytes v = Error e -> e = OverflowError).
Proof.
  split; [|split].
  - split.
    + intros H. apply as_int_as_bytes in H. tauto.
    + intros [Hlen <-]. by apply as_bytes_as_int.
  - split.
    + intros H Hv. by rewrite (as_bytes_ok v Hv) in H.
    + apply as_bytes_overflow.
  - unfold as_bytes. intros e. destruct (_ && _); [done|]. by intros [= <-].
Qed.

Lemma position_bound name pos : position name = Ok pos -> pos < 24.
Proof.
  unfold position. destruct (list_find _ positions) as [[i [n p]]|] eqn:E; [|done].
  intros [= <-]. apply list_find_Some in E as (Hl & _ & _).
  apply list_elem_of_lookup_2 in Hl. unfold positions in Hl.
  rewrite !elem_of_cons in Hl. pose proof (not_elem_of_nil (n, p)).
  repeat (destruct Hl as [[= _ ->]|Hl]; [lia|]). tauto.
Qed.

Lemma update_numeric_field_run db buf index name pos v bs :
  datas db !! IDX = Some buf ->
  position name = Ok pos ->
  as_bytes v = Ok bs ->
  index + pos * 4 + 4 <= length buf ->
  update_numeric_field index name v db
  = (Ok tt, set_datas (<[IDX := list_inserts (index + pos * 4) bs buf]> (datas db)) db).
Proof.
  intros Hd Hpos Hbs Hlen. unfold update_numeric_field, bind, lift.
  rewrite Hpos, Hbs. apply as_int_as_bytes in Hbs as [_ Hl].
  rewrite (write_bytes_ok bs (index + pos * 4) 0 db buf Hd) by lia.
  by rewrite Nat.add_0_r.
Qed.

Lemma get_numeric_field_run db buf index name pos :
  datas db !! IDX = Some buf ->
  position name = Ok pos ->
  get_numeric_field index name db
  = (Ok (as_int (slice buf (index + pos * 4) (index + pos * 4 + 4))), db).
Proof.
  intros Hd Hpos. unfold get_numeric_field, bind, lift, ret.
  by rewrite Hpos, (data_ok db IDX buf Hd).
Qed.

Lemma slice_inserts_apart (bs d : list byte) i j n :
  j + n <= i \/ i + length bs <= j ->
  slice (list_inserts i bs d) j (j + n) = slice d j (j + n).
Proof.
  intros Hapart. unfold slice. apply list_eq. intros k.
  replace (j + n - j) with n by lia.
  destruct (decide (k < n)) as [Hk|Hk].
  - rewrite !lookup_take_lt, !lookup_drop by lia.
    destruct Hapart; [apply list_lookup_inserts_lt | apply list_lookup_inserts_ge]; lia.
  - by rewrite !lookup_take_ge by lia.
Qed.

(** X6: a field written by [update_numeric_field] is read back by
    [get_numeric_field], and the fields at every other place, of this entry
    or of another, read as before. *)
Theorem get_numeric_field_after_update (db : RBDB) (buf : list byte)
    (index : nat) (name : string) (pos : nat) (v : Z)
    (index' : nat) (name' : string) (pos' : nat) :
  datas db !! IDX = Some buf ->
  position name = Ok pos ->
  index + pos * 4 + 4 <= length buf ->
  (0 <= v < 2 ^ 32)%Z ->
  position name' = Ok pos' ->
  index' + pos' * 4 + 4 <= index + pos * 4 \/ index + pos * 4 + 4 <= index' + pos' * 4 ->
  (get_numeric_field index name (update_numeric_field index name v db).2).1 = Ok v
  /\ (get_numeric_field index' name' (update_numeric_field index name v db).2).1
     = (get_numeric_field index' name' db).1.
Proof.
  intros Hd Hpos Hlen Hv Hpos' Hapart.
  pose proof (as_bytes_ok v Hv) as Hbs.
  rewrite (update_numeric_field_run db buf index name pos v _ Hd Hpos Hbs Hlen).
  cbn [snd].
  set (bs := [byte_of_Z v; _; _; _]) in *.
  set (db' := set_datas _ db).
  assert (datas db' !! IDX = Some (list_inserts (index + pos * 4) bs buf)) as Hd'
    by apply lookup_insert_eq.
  rewrite (get_numeric_field_run db' _ index name pos Hd' Hpos).
  rewrite (get_numeric_field_run db' _ index' name' pos' Hd' Hpos').
  rewrite (get_numeric_field_run db buf index' name' pos' Hd Hpos').
  cbn [fst]. split; f_equal.
  - change 4 with (length bs) at 2. rewrite slice_inserts by (simpl; lia).
    by apply as_int_as_bytes in Hbs as [-> _].
  - f_equal. apply slice_inserts_apart. simpl. lia.
Qed.

Lemma write_bytes_overrun bs : forall offset x db d,
  datas db !! IDX = Some d ->
  bs <> [] ->
  length d < offset + x + length bs ->
  write_bytes offset x bs db
  = (Error IndexError,
     set_datas (<[IDX := list_inserts (offset + x) (take (length d - (offset + x)) bs) d]>
                  (datas db)) db).
Proof.
  induction bs as [|b bs IH]; intros offset x db d Hd Hne Hlen; [done|].
  cbn [write_bytes]. unfold bind.
  destruct (decide (offset + x < length d)) as [Hin|Hout].
  - rewrite (setitem_idx_ok db d) by done.
    simpl in Hlen.
    erewrite IH; cycle 1.
    + simpl. apply lookup_insert_eq.
    + intros ->. simpl in Hlen. lia.
    + rewrite length_insert. lia.
    + simpl. rewrite insert_insert_eq, length_insert, Nat.add_succ_r.
      replace (length d - (offset + x)) with (S (length d - S (offset + x))) by lia.
      cbn [take list_inserts].
      by rewrite list_insert_inserts_lt by lia.
  - rewrite (setitem_idx_out_of_range db d) by (done || lia).
    replace (length d - (offset + x)) with 0 by lia.
    cbn [take list_inserts]. by rewrite set_datas_id.
Qed.

(** X7: the failures of [update_numeric_field].  An unknown field name
    raises [KeyError] and a value outside 32 bits [OverflowError], both
    with the buffer unchanged.  When the four bytes do not fit into the
    index buffer, the call raises [IndexError] after it has written the
    bytes that do fit: the buffer never grows, but it is changed. *)
Theorem update_numeric_field_failures (db : RBDB) (buf : list byte)
    (index : nat) (name : string) (v : Z) :
  datas db !! IDX = Some buf ->
  (position name = Error KeyError ->
     update_numeric_field index name v db = (Error KeyError, db))
  /\ (forall pos, position name = Ok pos -> ~ (0 <= v < 2 ^ 32)%Z ->
        update_numeric_field index name v db = (Error OverflowError, db))
  /\ (forall pos bs, position name = Ok pos -> as_bytes v = Ok bs ->
        length buf < index + pos * 4 + 4 ->
        update_numeric_field index name v db
        = (Error IndexError,
           set_datas (<[IDX := list_inserts (index + pos * 4)
                                 (take (length buf - (index + pos * 4)) bs) buf]>
                        (datas db)) db)).
Proof.
  intros Hd. split; [|split].
  - intros Hpos. unfold update_numeric_field, bind, lift. by rewrite Hpos.
  - intros pos Hpos Hv. unfold update_numeric_field, bind, lift.
    by rewrite Hpos, (as_bytes_overflow v Hv).
  - intros pos bs Hpos Hbs Hlen. unfold update_numeric_field, bind, lift.
    rewrite Hpos, Hbs. apply as_int_as_bytes in Hbs as [_ Hl].
    rewrite (write_bytes_overrun bs (index + pos * 4) 0 db buf Hd).
    + by rewrite Nat.add_0_r.
    + by destruct bs.
    + lia.
Qed.


(** ** More on [update_entry], the string tables and [RBDB.__init__] *)

Lemma position_PLAYCOUNT : position "PLAYCOUNT" = Ok 15.
Proof. reflexivity. Qed.
Lemma position_LEN : position "LEN" = Ok 14.
Proof. reflexivity. Qed.
Lemma position_PLAYTIME : position "PLAYTIME" = Ok 17.
Proof. reflexivity. Qed.

(** X8: [update_entry] with [update_playtime] alone, on an entry that lies
    inside the index buffer: when PLAYCOUNT times LEN is below 2^32 the
    call succeeds, PLAYTIME reads as that product afterwards and PLAYCOUNT
    and LEN read as before; when the product is 2^32 or more the call
    raises [OverflowError] and changes nothing. *)
Theorem update_entry_recomputes_playtime (db : RBDB) (buf : list byte) (index : nat) :
  datas db !! IDX = Some buf ->
  index + 72 <= length buf ->
  let playcount := as_int (slice buf (index + 60) (index + 64)) in
  let _len := as_int (slice buf (index + 56) (index + 60)) in
  ((playcount * _len < 2 ^ 32)%Z ->
     (update_entry index None true db).1 = Ok tt
     /\ field_of (update_entry index None true db).2 index "PLAYTIME"
        = Ok (playcount * _len)%Z
     /\ field_of (update_entry index None true db).2 index "PLAYCOUNT" = Ok playcount
     /\ field_of (update_entry index None true db).2 index "LEN" = Ok _len)
  /\ ((2 ^ 32 <= playcount * _len)%Z ->
        update_entry index None true db = (Error OverflowError, db)).
Proof.
  intros Hd Hlen playcount _len.
  assert (update_entry index None true db
          = update_numeric_field index "PLAYTIME" (playcount * _len) db) as Hrun.
  { unfold update_entry, bind, ret.
    rewrite (get_numeric_field_run db buf index "PLAYCOUNT" 15 Hd position_PLAYCOUNT).
    rewrite (get_numeric_field_run db buf index "LEN" 14 Hd position_LEN).
    replace (index + 15 * 4 + 4) with (index + 64) by lia.
    replace (index + 14 * 4 + 4) with (index + 60) by lia.
    done. }
  rewrite Hrun. clear Hrun.
  pose proof (as_int_nonneg (slice buf (index + 60) (index + 64))).
  pose proof (as_int_nonneg (slice buf (index + 56) (index + 60))).
  split.
  - intros Hv.
    assert (0 <= playcount * _len < 2 ^ 32)%Z as Hr by (unfold playcount, _len; lia).
    pose proof (as_bytes_ok _ Hr) as Hbs.
    rewrite (update_numeric_field_run db buf index "PLAYTIME" 17 _ _ Hd
               position_PLAYTIME Hbs) by lia.
    cbn [fst snd]. set (bs := [byte_of_Z _; _; _; _]) in *.
    set (db' := set_datas _ db).
    assert (datas db' !! IDX = Some (list_inserts (index + 17 * 4) bs buf)) as Hd'
      by apply lookup_insert_eq.
    unfold field_of.
    rewrite (get_numeric_field_run db' _ index "PLAYTIME" 17 Hd' position_PLAYTIME).
    rewrite (get_numeric_field_run db' _ index "PLAYCOUNT" 15 Hd' position_PLAYCOUNT).
    rewrite (get_numeric_field_run db' _ index "LEN" 14 Hd' position_LEN).
    cbn [fst]. split; [done|]. split; [|split]; f_equal.
    + change 4 with (length bs) at 2. rewrite slice_inserts by (simpl; lia).
      by apply as_int_as_bytes in Hbs as [-> _].
    + rewrite slice_inserts_apart by (simpl; lia).
      unfold playcount. do 2 f_equal; lia.
    + rewrite slice_inserts_apart by (simpl; lia).
      unfold _len. do 2 f_equal; lia.
  - intros Hv. unfold update_numeric_field, bind, lift.
    rewrite position_PLAYTIME, as_bytes_overflow by lia. done.
Qed.

Lemma utf8_decode_ascii bs :
  ascii_text bs -> utf8_decode bs = Some (Byte.to_N <$> bs).
Proof.
  induction 1 as [|b bs [_ Hb] _ IH]; [done|].
  cbn [utf8_decode]. apply N.ltb_lt in Hb. rewrite Hb, IH. done.
Qed.

Lemma until_zero_ascii (text rest : list byte) :
  ascii_text text ->
  until_zero text = text /\ until_zero (text ++ x00 :: rest) = text.
Proof.
  induction 1 as [|b bs [Hb _] _ [IH1 IH2]]; [done|].
  simpl. destruct (Byte.eqb b x00) eqn:E.
  - apply Byte.byte_dec_bl in E. subst b. by vm_compute in Hb.
  - by rewrite IH1, IH2.
Qed.

Lemma slice_middle {A} (pre mid post : list A) :
  slice (pre ++ mid ++ post) (length pre) (length pre + length mid) = mid.
Proof.
  unfold slice. rewrite drop_app_length.
  replace (length pre + length mid - length pre) with (length mid) by lia.
  by rewrite take_app_length.
Qed.

(** X9: [_get_string_at_offset] on a well-formed record.  Where a table
    holds, at [offset], the four bytes of a length, four bytes of a
    sequence number and a payload of that length which is an ASCII text,
    alone or followed by a zero byte and padding, the call returns the
    text. *)
Theorem get_string_of_record (db : RBDB) (tagidx : file_index)
    (pre lenb seqb text pad post : list byte) :
  datas db !! tagidx = Some (pre ++ lenb ++ seqb ++ (text ++ pad) ++ post) ->
  as_bytes (Z.of_nat (length (text ++ pad))) = Ok lenb ->
  length seqb = 4 ->
  ascii_text text ->
  pad = [] \/ (exists pad', pad = x00 :: pad') ->
  _get_string_at_offset tagidx (length pre) db = (Ok (Byte.to_N <$> text), db).
Proof.
  intros Hd Hlenb Hseq Htext Hpad.
  unfold _get_string_at_offset, bind. rewrite !(data_ok db tagidx _ Hd).
  apply as_int_as_bytes in Hlenb as [Hv Hl].
  assert (slice (pre ++ lenb ++ seqb ++ (text ++ pad) ++ post)
            (length pre) (length pre + 4) = lenb) as ->.
  { rewrite <- Hl. apply slice_middle. }
  rewrite Hv, Nat2Z.id.
  assert (slice (pre ++ lenb ++ seqb ++ (text ++ pad) ++ post)
            (length pre + 8) (length pre + 8 + length (text ++ pad)) = text ++ pad) as ->.
  { replace (length pre + 8) with (length (pre ++ lenb ++ seqb))
      by (rewrite !length_app; lia).
    rewrite (app_assoc lenb), (app_assoc pre). apply slice_middle. }
  assert (until_zero (text ++ pad) = text) as ->.
  { destruct (until_zero_ascii text [] Htext) as [H1 _].
    destruct Hpad as [->|[pad' ->]]; [by rewrite app_nil_r|].
    by destruct (until_zero_ascii text pad' Htext). }
  by rewrite (utf8_decode_ascii text Htext).
Qed.

(** X10: [_get_string_at_offset] checks no bounds.  An offset at or past
    the end of the table gives the empty string, and so does a record
    whose eight header bytes end the table. *)
Theorem get_string_past_end (db : RBDB) (tagidx : file_index)
    (d : list byte) (offset : nat) :
  datas db !! tagidx = Some d ->
  length d <= offset + 8 ->
  _get_string_at_offset tagidx offset db = (Ok [], db).
Proof.
  intros Hd Hlen. unfold _get_string_at_offset, bind.
  rewrite !(data_ok db tagidx _ Hd).
  by rewrite (slice_past_end d (offset + 8)).
Qed.


(** ** More on [RBDB.__init__] and [commit] *)

Lemma init_loop_total md5 root w indexes : forall self,
  (forall i, i ∈ indexes -> is_Some (files w !! database_path root i)) ->
  exists db, init_loop md5 root w indexes self = Ok db.
Proof.
  induction indexes as [|i indexes IH]; intros self Hall; simpl; [eauto|].
  unfold read_file. destruct (Hall i) as [c ->]; [by left|].
  apply IH. intros j Hj. apply Hall. by right.
Qed.

Lemma init_loop_error md5 root w indexes : forall self e,
  init_loop md5 root w indexes self = Error e ->
  e = FileNotFoundError
  /\ exists i, i ∈ indexes /\ files w !! database_path root i = None.
Proof.
  induction indexes as [|i indexes IH]; intros self e; simpl; [done|].
  unfold read_file. destruct (files w !! database_path root i) eqn:Hf.
  - intros (-> & j & Hj & Hn)%IH. split; [done|]. exists j. split; [by right|done].
  - intros [= <-]. split; [done|]. exists i. split; [by left|done].
Qed.

Lemma IDX_in_file_indexes : IDX ∈ file_indexes.
Proof. by left. Qed.

Lemma RBDB_init_unfold md5 root w db :
  RBDB_init md5 root w = Ok db ->
  exists self idx,
    init_loop md5 root w file_indexes (mkRBDB ∅ ∅ ∅ 0 0 0 0 0 0 0) = Ok self
    /\ datas self !! IDX = Some idx
    /\ db = mkRBDB (paths self) (datas self) (checksums self) 24
              (as_int (slice idx 0 4)) (as_int (slice idx 4 8))
              (as_int (slice idx 8 12)) (as_int (slice idx 12 16))
              (as_int (slice idx 16 20)) (as_int (slice idx 20 24)).
Proof.
  unfold RBDB_init, getitem.
  destruct (init_loop md5 root w file_indexes _) as [self|] eqn:Hloop; [|done].
  destruct (datas self !! IDX) as [idx|] eqn:Hidx; [|done].
  intros [= <-]. by exists self, idx.
Qed.

(** X11: [RBDB.__init__] succeeds exactly when the ten files of the
    database exist under [root], and fails with [FileNotFoundError]
    otherwise.  After it the cursor is 24, the buffer of each store is the
    content of its file, its fingerprint the hash of that content, and
    there is no other store. *)
Theorem RBDB_init_loads_ten_files (md5 : list byte -> pystr) (root : pystr) (w : World) :
  ((forall i, i ∈ file_indexes -> is_Some (files w !! database_path root i))
   <-> exists db, RBDB_init md5 root w = Ok db)
  /\ (forall e, RBDB_init md5 root w = Error e -> e = FileNotFoundError)
  /\ (forall db, RBDB_init md5 root w = Ok db ->
        cur_offset db = 24
        /\ (forall i, i ∈ file_indexes ->
              paths db !! i = Some (database_path root i)
              /\ datas db !! i = files w !! database_path root i
              /\ checksums db !! i = md5 <$> files w !! database_path root i)
        /\ (forall i, i ∉ file_indexes -> datas db !! i = None)).
Proof.
  split; [|split].
  - split.
    + intros Hall.
      destruct (init_loop_total md5 root w file_indexes
                  (mkRBDB ∅ ∅ ∅ 0 0 0 0 0 0 0) Hall) as [self Hloop].
      unfold RBDB_init, getitem. rewrite Hloop.
      apply init_loop_spec in Hloop as [Hin _].
      destruct (Hin IDX IDX_in_file_indexes) as (c & _ & _ & -> & _). eauto.
    + intros [db Hdb] i Hi. apply RBDB_init_spec in Hdb as [_ Hl].
      destruct (Hl i Hi) as (c & -> & _). eauto.
  - intros e. unfold RBDB_init, getitem.
    destruct (init_loop md5 root w file_indexes _) as [self|e'] eqn:Hloop.
    + apply init_loop_spec in Hloop as [Hin _].
      destruct (Hin IDX IDX_in_file_indexes) as (c & _ & _ & -> & _). done.
    + intros [= <-]. by apply init_loop_error in Hloop as [-> _].
  - intros db Hdb. pose proof (RBDB_init_spec md5 root w db Hdb) as [Hcur Hl].
    split; [done|]. split.
    + intros i Hi. destruct (Hl i Hi) as (c & -> & -> & -> & ->). done.
    + intros i Hi. apply RBDB_init_unfold in Hdb as (self & idx & Hloop & _ & ->).
      apply init_loop_spec in Hloop as [_ Hout].
      cbn [datas]. destruct (Hout i Hi) as (_ & -> & _). done.
Qed.

(** X12: [RBDB.__init__] decodes the header.  When the index file begins
    with the little-endian bytes of six values, these are the version, the
    size, the count, the serial, the commit id and the dirty flag of the
    object. *)
Theorem RBDB_init_reads_header (md5 : list byte -> pystr) (root : pystr) (w : World)
    (db : RBDB) (v0 v1 v2 v3 v4 v5 : Z) (h0 h1 h2 h3 h4 h5 rest : list byte) :
  RBDB_init md5 root w = Ok db ->
  files w !! database_path root IDX = Some (h0 ++ h1 ++ h2 ++ h3 ++ h4 ++ h5 ++ rest) ->
  as_bytes v0 = Ok h0 -> as_bytes v1 = Ok h1 -> as_bytes v2 = Ok h2 ->
  as_bytes v3 = Ok h3 -> as_bytes v4 = Ok h4 -> as_bytes v5 = Ok h5 ->
  dbver db = v0 /\ dbsize db = v1 /\ dbcount db = v2
  /\ dbserial db = v3 /\ dbcommit db = v4 /\ dbdirty db = v5.
Proof.
  intros Hdb Hf H0 H1 H2 H3 H4 H5.
  apply RBDB_init_unfold in Hdb as (self & idx & Hloop & Hidx & ->).
  apply init_loop_spec in Hloop as [Hin _].
  destruct (Hin IDX IDX_in_file_indexes) as (c & Hc & _ & Hd & _).
  assert (idx = h0 ++ h1 ++ h2 ++ h3 ++ h4 ++ h5 ++ rest) as -> by congruence.
  apply as_int_as_bytes in H0 as [<- L0], H1 as [<- L1], H2 as [<- L2],
    H3 as [<- L3], H4 as [<- L4], H5 as [<- L5].
  destruct h0 as [|? [|? [|? [|? [|]]]]]; try discriminate L0.
  destruct h1 as [|? [|? [|? [|? [|]]]]]; try discriminate L1.
  destruct h2 as [|? [|? [|? [|? [|]]]]]; try discriminate L2.
  destruct h3 as [|? [|? [|? [|? [|]]]]]; try discriminate L3.
  destruct h4 as [|? [|? [|? [|? [|]]]]]; try discriminate L4.
  destruct h5 as [|? [|? [|? [|? [|]]]]]; try discriminate L5.
  cbn [dbver dbsize dbcount dbserial dbcommit dbdirty].
  repeat split; reflexivity.
Qed.

Lemma loaded_commit_ready md5 root w db self :
  RBDB_init md5 root w = Ok db ->
  paths self = paths db ->
  checksums self = checksums db ->
  (forall i, i ∈ file_indexes -> is_Some (datas self !! i)) ->
  forall i, i ∈ file_indexes ->
    i ∈ file_indexes
    /\ paths self !! i = Some (database_path root i)
    /\ is_Some (datas self !! i)
    /\ checksums self !! i = md5 <$> datas db !! i
    /\ is_Some (datas db !! i).
Proof.
  intros Hinit Hp Hc Hd i Hi. apply RBDB_init_spec in Hinit as [_ Hl].
  destruct (Hl i Hi) as (c & _ & Hpi & Hdi & Hci).
  rewrite Hp, Hc, Hpi, Hci, Hdi. repeat split; eauto.
Qed.

(** X13: [commit] does not renew the fingerprints.  A second [commit]
    right after the first succeeds as well, writes the same changed stores
    once more, and leaves every file with the content the first gave it. *)
Theorem commit_twice_writes_twice (md5 : list byte -> pystr) (root : pystr)
    (w : World) (db db' : RBDB) (w1 : World) :
  RBDB_init md5 root w = Ok db ->
  paths db' = paths db ->
  checksums db' = checksums db ->
  (forall i, i ∈ file_indexes -> is_Some (datas db' !! i)) ->
  exists w2 w3,
    commit md5 db' w1 = (Ok tt, w2)
    /\ commit md5 db' w2 = (Ok tt, w3)
    /\ files w3 = files w2
    /\ written w3 = written w2
         ++ (database_path root <$> changed_stores md5 (datas db) db' file_indexes).
Proof.
  intros Hinit Hp Hc Hd.
  pose proof (loaded_commit_ready md5 root w db db' Hinit Hp Hc Hd) as Hready.
  destruct (commit_loop_spec md5 root (datas db) db' file_indexes Hready w1)
    as (w2 & Hrun2 & _ & Hin2 & _).
  destruct (commit_loop_spec md5 root (datas db) db' file_indexes Hready w2)
    as (w3 & Hrun3 & Hw3 & Hin3 & Hout3).
  exists w2, w3. repeat split; try done.
  apply map_eq. intros p.
  destruct (decide (p ∈ database_path root <$> changed_stores md5 (datas db) db' file_indexes))
    as [Hp'|Hp'].
  - apply list_elem_of_fmap in Hp' as (i & -> & Hi).
    by rewrite Hin3, Hin2.
  - by apply Hout3.
Qed.

Lemma same_stores_next_entry db : same_stores db (next_entry db).2.
Proof.
  rewrite next_entry_unfold.
  destruct (frames_entry (cur_offset db) db) as [H _].
  destruct (entry (cur_offset db) db) as [[e|e] db1]; simpl in *; [|done].
  destruct H. by constructor.
Qed.

Lemma same_stores_frames {A} (m : M A) db : frames m -> same_stores db (m db).2.
Proof. intros H. apply H. Qed.

Lemma same_stores_run_op o db : same_stores db (run_op o db).
Proof.
  destruct o; simpl.
  - apply same_stores_next_entry.
  - apply same_stores_frames. unfold EOF. auto 10 with frame.
  - apply same_stores_frames. auto with frame.
  - apply same_stores_frames. auto with frame.
  - apply same_stores_frames. auto with frame.
Qed.

Lemma same_stores_run_ops ops : forall db, same_stores db (run_ops ops db).
Proof.
  induction ops as [|o ops IH]; intros db; [apply same_stores_refl|].
  unfold run_ops. simpl. eapply same_stores_trans; [apply same_stores_run_op|].
  apply IH.
Qed.

Lemma filter_none {A} (P : A -> Prop) `{forall x, Decision (P x)} (l : list A) :
  (forall x, x ∈ l -> ~ P x) -> filter P l = [].
Proof.
  induction l as [|x l IH]; intros Hl; [done|].
  rewrite filter_cons_False by (apply Hl; by left).
  apply IH. intros y Hy. apply Hl. by right.
Qed.

(** X14: whatever methods a client calls on a loaded [RBDB], and whether
    they return or raise, a [commit] after them succeeds and writes at most
    the index file: every other file is left as it was. *)
Theorem commit_after_calls_writes_index_only (md5 : list byte -> pystr)
    (root : pystr) (w : World) (db : RBDB) (ops : list op) (w1 : World) :
  RBDB_init md5 root w = Ok db ->
  exists w2,
    commit md5 (run_ops ops db) w1 = (Ok tt, w2)
    /\ (written w2 = written w1
        \/ written w2 = written w1 ++ [database_path root IDX])
    /\ (forall p, p <> database_path root IDX -> files w2 !! p = files w1 !! p).
Proof.
  intros Hinit. pose proof (same_stores_run_ops ops db) as Hs.
  set (db' := run_ops ops db) in *. destruct Hs as [Hp Hc Htags Hlen].
  pose proof (RBDB_init_spec md5 root w db Hinit) as [_ Hl].
  assert (forall i, i ∈ file_indexes -> is_Some (datas db' !! i)) as Hd.
  { intros i Hi. destruct (Hl i Hi) as (c & _ & _ & Hdi & _).
    destruct (decide (i = IDX)) as [->|Hne].
    - rewrite Hdi in Hlen. destruct (datas db' !! IDX); [eauto|done].
    - rewrite Htags by done. eauto. }
  pose proof (loaded_commit_ready md5 root w db db' Hinit Hp Hc Hd) as Hready.
  destruct (commit_loop_spec md5 root (datas db) db' file_indexes Hready w1)
    as (w2 & Hrun & Hw & _ & Hout).
  assert (changed_stores md5 (datas db) db' file_indexes = []
          \/ changed_stores md5 (datas db) db' file_indexes = [IDX]) as Hch.
  { unfold changed_stores, file_indexes. rewrite filter_cons.
    rewrite (filter_none _ (_ :: _)).
    - destruct (decide _); auto.
    - intros i Hi Hne. apply Hne. rewrite Htags; [done|].
      intros ->. rewrite !elem_of_cons in Hi.
      repeat (destruct Hi as [Hi|Hi]; [discriminate Hi|]).
      by apply elem_of_nil in Hi. }
  exists w2. split; [done|]. split.
  - rewrite Hw. destruct Hch as [-> | ->]; [left; apply app_nil_r | by right].
  - intros p Hp'. apply Hout. destruct Hch as [-> | ->]; simpl.
    + apply not_elem_of_nil.
    + by intros ->%list_elem_of_singleton.
Qed.


(** ** The ledger *)

Lemma LastFM_add_row_track lower data row :
  LastFM_add lower data row =
  match data !! key (row_track lower row) with
  | None => <[key (row_track lower row) := mk_row 1 (row_track lower row)]> data
  | Some r => <[key (row_track lower row) := mk_row (count r + 1) (track r)]> data
  end.
Proof. by destruct row as [[a b] t]. Qed.

(** X15: the ledger of [LastFM._parse] holds, under each key, the number
    of the rows with that key and the track of the first of them, and
    nothing under a key that no row has. *)
Theorem LastFM_parse_counts_rows (lower : pystr -> pystr)
    (rows : list (pystr * pystr * pystr)) (k : pystr) :
  LastFM_parse lower rows !! k =
  (fun first =>
     mk_row (Z.of_nat (length (filter (fun row => key (row_track lower row) = k) rows)))
            (row_track lower first))
  <$> head (filter (fun row => key (row_track lower row) = k) rows).
Proof.
  unfold LastFM_parse. induction rows as [|row rows IH] using rev_ind; [done|].
  rewrite foldl_snoc, filter_app, LastFM_add_row_track.
  set (data := foldl (LastFM_add lower) ∅ rows) in *.
  destruct (decide (key (row_track lower row) = k)) as [Hk|Hk].
  - rewrite (filter_cons_True _ row []) by done. rewrite filter_nil, Hk, IH.
    destruct (filter _ rows) as [|first hits]; simpl.
    + by rewrite lookup_insert_eq.
    + rewrite lookup_insert_eq. do 2 f_equal. rewrite length_app. simpl. lia.
  - rewrite (filter_cons_False _ row []) by done. rewrite filter_nil, app_nil_r.
    destruct (data !! key (row_track lower row)); by rewrite lookup_insert_ne.
Qed.

Lemma foldr_add_perm (l1 l2 : list Z) :
  l1 ≡ₚ l2 -> foldr Z.add 0%Z l1 = foldr Z.add 0%Z l2.
Proof. induction 1; simpl; lia. Qed.

Lemma total_count_insert_new data k r :
  data !! k = None -> total_count (<[k := r]> data) = (count r + total_count data)%Z.
Proof.
  intros H. unfold total_count.
  rewrite (foldr_add_perm _ (count <$> ((k, r) :: map_to_list data).*2)); [done|].
  by rewrite map_to_list_insert.
Qed.

Lemma total_count_insert_old data k r r' :
  data !! k = Some r ->
  total_count (<[k := r']> data) = (count r' - count r + total_count data)%Z.
Proof.
  intros H. rewrite <- insert_delete_eq.
  rewrite total_count_insert_new by apply lookup_delete_eq.
  unfold total_count.
  rewrite (foldr_add_perm (count <$> (map_to_list data).*2)
             (count <$> ((k, r) :: map_to_list (delete k data)).*2)).
  - rewrite !fmap_cons. cbn [foldr snd]. lia.
  - by rewrite map_to_list_delete.
Qed.

Lemma size_list_to_set_le (l : list pystr) :
  size (list_to_set l : gset pystr) <= length l.
Proof.
  induction l as [|x l IH].
  { change (list_to_set [] : gset pystr) with (∅ : gset pystr).
    rewrite size_empty. done. }
  change (list_to_set (x :: l) : gset pystr) with ({[x]} ∪ list_to_set l : gset pystr).
  cbn [length]. rewrite size_union_alt, size_singleton.
  pose proof (subseteq_size (list_to_set l ∖ {[x]}) (list_to_set l : gset pystr)
                (subseteq_difference_l _ _ _ (reflexivity _))) as H.
  lia.
Qed.

(** X16: the figures that [LastFM] reports.  The counts of the ledger add
    up to the number of rows read; the number of tracks is at most the
    number of rows, and the numbers of artists and of albums are at most
    the number of tracks. *)
Theorem LastFM_figures (lower : pystr -> pystr) (rows : list (pystr * pystr * pystr)) :
  total_count (LastFM_parse lower rows) = Z.of_nat (length rows)
  /\ LastFM_count (LastFM_parse lower rows) <= length rows
  /\ LastFM_artist_count lower (LastFM_parse lower rows)
     <= LastFM_count (LastFM_parse lower rows)
  /\ LastFM_album_count lower (LastFM_parse lower rows)
     <= LastFM_count (LastFM_parse lower rows).
Proof.
  split; [|split; [|split]].
  - unfold LastFM_parse. induction rows as [|row rows IH] using rev_ind; [done|].
    rewrite foldl_snoc, LastFM_add_row_track, length_app.
    destruct (foldl (LastFM_add lower) ∅ rows !! key (row_track lower row)) eqn:E.
    + rewrite (total_count_insert_old _ _ _ _ E), IH. simpl. lia.
    + rewrite (total_count_insert_new _ _ _ E), IH. simpl. lia.
  - unfold LastFM_parse, LastFM_count.
    induction rows as [|row rows IH] using rev_ind; [done|].
    rewrite foldl_snoc, LastFM_add_row_track, length_app.
    destruct (foldl (LastFM_add lower) ∅ rows !! key (row_track lower row)) eqn:E.
    + rewrite map_size_insert_Some by eauto. lia.
    + rewrite map_size_insert_None by done. simpl. lia.
  - unfold LastFM_artist_count, LastFM_count.
    etransitivity; [apply size_list_to_set_le|].
    by rewrite !length_fmap, length_map_to_list.
  - unfold LastFM_album_count, LastFM_count.
    etransitivity; [apply size_list_to_set_le|].
    by rewrite !length_fmap, length_map_to_list.
Qed.


(** ** More on the import *)

Lemma reads_only_ret {A} (a : A) : reads_only (ret a).
Proof. done. Qed.
Lemma reads_only_raise {A} e : reads_only (@raise A e).
Proof. done. Qed.
Lemma reads_only_lift {A} (r : result A) : reads_only (lift r).
Proof. done. Qed.
Lemma reads_only_gets {A} (f : RBDB -> A) : reads_only (gets f).
Proof. done. Qed.
Lemma reads_only_data i : reads_only (data i).
Proof. done. Qed.

Lemma reads_only_bind {A B} (m : M A) (k : A -> M B) :
  reads_only m -> (forall a, reads_only (k a)) -> reads_only (bind m k).
Proof.
  intros Hm Hk db. unfold bind. specialize (Hm db).
  destruct (m db) as [[a|e] db1]; simpl in *; subst; [apply Hk | done].
Qed.

Create HintDb reads.
#[export] Hint Resolve reads_only_ret reads_only_raise reads_only_lift
  reads_only_gets reads_only_data : reads.
#[export] Hint Extern 2 (reads_only (bind _ _)) =>
  apply reads_only_bind; [|intros ?] : reads.
#[export] Hint Extern 2 (reads_only (if ?b then _ else _)) => destruct b : reads.
#[export] Hint Extern 2 (reads_only (match ?o with Some _ => _ | None => _ end)) =>
  destruct o : reads.

Lemma reads_only_get_string tagidx offset :
  reads_only (_get_string_at_offset tagidx offset).
Proof. unfold _get_string_at_offset. auto 10 with reads. Qed.
#[export] Hint Resolve reads_only_get_string : reads.

Lemma reads_only_entry_loop entry_offset items values :
  reads_only (entry_loop entry_offset items values).
Proof.
  revert values. induction items as [|[name pos] items IH]; intros values;
    cbn [entry_loop]; auto 10 with reads.
Qed.
#[export] Hint Resolve reads_only_entry_loop : reads.

Lemma reads_only_entry entry_offset : reads_only (entry entry_offset).
Proof. unfold entry. auto with reads. Qed.

Lemma reads_only_get_numeric_field index name :
  reads_only (get_numeric_field index name).
Proof. unfold get_numeric_field. auto 10 with reads. Qed.

Lemma reads_only_EOF : reads_only EOF.
Proof. unfold EOF. auto 10 with reads. Qed.

Lemma entry_loop_other entry_offset items : forall values db vs db',
  entry_loop entry_offset items values db = (Ok vs, db') ->
  forall name, name ∉ items.*1 -> vs !! name = values !! name.
Proof.
  induction items as [|[n pos] items IH]; intros values db vs db'.
  - intros [= <- _]. done.
  - cbn [entry_loop]. unfold bind at 1.
    destruct (data IDX db) as [[d|e] db1]; [|done].
    case_bool_decide.
    + unfold bind.
      destruct (_get_string_at_offset _ _ db1) as [[s|e] db2]; [|done].
      intros Hrun name [Hn Hni]%not_elem_of_cons. simpl in Hn.
      rewrite (IH _ _ _ _ Hrun name Hni). by rewrite !lookup_insert_ne.
    + intros Hrun name [Hn Hni]%not_elem_of_cons. simpl in Hn.
      rewrite (IH _ _ _ _ Hrun name Hni). by rewrite !lookup_insert_ne.
Qed.

Lemma index_not_position : "index" ∉ positions.*1.
Proof. apply (bool_decide_unpack _). vm_compute. exact I. Qed.

Lemma entry_index entry_offset db vs db' :
  entry entry_offset db = (Ok vs, db') ->
  vs !! "index" = Some (VInt (Z.of_nat entry_offset)).
Proof.
  unfold entry. intros Hrun.
  rewrite (entry_loop_other _ _ _ _ _ _ Hrun _ index_not_position).
  apply lookup_singleton_eq.
Qed.

(** What [next_entry] returns and leaves behind. *)
Lemma next_entry_run db :
  (exists e, next_entry db = (Error e, db))
  \/ (exists values,
        next_entry db = (Ok values, set_cur_offset (cur_offset db + 96) db)
        /\ values !! "index" = Some (VInt (Z.of_nat (cur_offset db)))).
Proof.
  rewrite next_entry_unfold.
  pose proof (reads_only_entry (cur_offset db) db) as Hro.
  pose proof (entry_index (cur_offset db) db) as Hidx.
  destruct (entry (cur_offset db) db) as [[vs|e] db1]; simpl in Hro; subst db1.
  - right. exists vs. split; [reflexivity|]. by eapply Hidx.
  - left. by exists e.
Qed.

(** X17: an entry without a match.  When the track of the next entry has
    no row in the ledger, the round of the import counts it as missing,
    moves the cursor on, and changes nothing else. *)
Theorem import_step_without_match (lower : pystr -> pystr)
    (data : gmap pystr lastfm_row) (done missing : Z) (db : RBDB)
    (e : gmap string value) (t : Track) :
  (next_entry db).1 = Ok e ->
  Track_from_rbdb_entry lower e = Ok t ->
  LastFM_exists data t = None ->
  import_step lower (Some data) done missing db
  = (Ok (done, (missing + 1)%Z), set_cur_offset (cur_offset db + 96) db).
Proof.
  intros He Ht Hmiss. unfold import_step, bind.
  destruct (next_entry_run db) as [[x Hrun]|(vs & Hrun & _)];
    rewrite Hrun in He |- *; [done|].
  injection He as ->. unfold import_entry, bind, lift. by rewrite Ht, Hmiss.
Qed.

(** X18: an entry with a match.  With a row in the ledger for the track of
    the next entry, the round fails in [update_entry] when the row counts
    more plays than the entry; it counts the entry as done and changes
    nothing but the cursor when the entry has no plays or has a PLAYTIME;
    and otherwise it recomputes the PLAYTIME of that entry. *)
Theorem import_step_with_match (lower : pystr -> pystr)
    (data : gmap pystr lastfm_row) (done missing : Z) (db : RBDB)
    (e : gmap string value) (t : Track) (row : lastfm_row) (pc pt : Z) :
  (next_entry db).1 = Ok e ->
  Track_from_rbdb_entry lower e = Ok t ->
  LastFM_exists data t = Some row ->
  int_field e "PLAYCOUNT" = Ok pc ->
  int_field e "PLAYTIME" = Ok pt ->
  ((pc < count row)%Z ->
     import_step lower (Some data) done missing db
     = (Error AttributeError, set_cur_offset (cur_offset db + 96) db))
  /\ ((count row <= pc)%Z -> (pc <= 0 \/ pt <> 0)%Z ->
        import_step lower (Some data) done missing db
        = (Ok ((done + 1)%Z, missing), set_cur_offset (cur_offset db + 96) db))
  /\ ((count row <= pc)%Z -> (0 < pc)%Z -> pt = 0%Z ->
        import_step lower (Some data) done missing db
        = match update_entry (cur_offset db) None true
                  (set_cur_offset (cur_offset db + 96) db) with
          | (Ok _, db') => (Ok ((done + 1)%Z, missing), db')
          | (Error x, db') => (Error x, db')
          end).
Proof.
  intros He Ht Hrow Hpc Hpt. unfold import_step, bind.
  destruct (next_entry_run db) as [[x Hrun]|(vs & Hrun & Hindex)];
    rewrite Hrun in He |- *; [done|].
  injection He as ->.
  assert (int_field e "index" = Ok (Z.of_nat (cur_offset db))) as Hi
    by (unfold int_field; by rewrite Hindex).
  unfold import_entry, bind, lift. rewrite Ht, Hrow, Hpc, Hpt, Hi, Nat2Z.id.
  split; [|split].
  - intros H. destruct (Z.gtb_spec (count row) pc); [done|lia].
  - intros H1 H2. destruct (Z.gtb_spec (count row) pc); [lia|]. unfold ret.
    destruct (Z.gtb_spec pc 0); [|done].
    destruct (Z.eqb_spec pt 0); [lia|done].
  - intros H1 H2 ->. destruct (Z.gtb_spec (count row) pc); [lia|]. unfold ret.
    destruct (Z.gtb_spec pc 0); [|lia]. simpl.
    by destruct (update_entry _ _ _ _) as [[[]|x] db'].
Qed.

Lemma writes_within_reads_only lo hi {A} (m : M A) :
  reads_only m -> writes_within lo hi m.
Proof. intros H db buf Hd. rewrite H. eauto. Qed.

Lemma writes_within_bind lo hi {A B} (m : M A) (k : A -> M B) :
  writes_within lo hi m -> (forall a, writes_within lo hi (k a)) ->
  writes_within lo hi (bind m k).
Proof.
  intros Hm Hk db buf Hd. unfold bind.
  destruct (Hm db buf Hd) as (buf1 & Hd1 & H1).
  destruct (m db) as [[a|e] db1]; simpl in *; [|eauto].
  destruct (Hk a db1 buf1 Hd1) as (buf2 & Hd2 & H2).
  exists buf2. split; [done|]. intros i Hi. by rewrite H2, H1.
Qed.

Lemma writes_within_weaken lo hi lo' hi' {A} (m : M A) :
  lo' <= lo -> hi <= hi' -> writes_within lo hi m -> writes_within lo' hi' m.
Proof.
  intros Hlo Hhi Hm db buf Hd. destruct (Hm db buf Hd) as (buf' & Hd' & H).
  exists buf'. split; [done|]. intros i Hi. apply H. lia.
Qed.

Lemma writes_within_setitem_idx lo hi i v :
  lo <= i < hi -> writes_within lo hi (setitem_idx i v).
Proof.
  intros Hi db buf Hd. unfold setitem_idx, bind. rewrite (data_ok db IDX buf Hd).
  case_bool_decide; simpl; [|eauto].
  exists (<[i := v]> buf). split; [apply lookup_insert_eq|].
  intros j Hj. apply list_lookup_insert_ne. lia.
Qed.

Lemma writes_within_write_bytes lo hi bs : forall offset x,
  lo <= offset + x -> offset + x + length bs <= hi ->
  writes_within lo hi (write_bytes offset x bs).
Proof.
  induction bs as [|b bs IH]; intros offset x Hlo Hhi; cbn [write_bytes].
  - by apply writes_within_reads_only.
  - simpl in Hhi. apply writes_within_bind.
    + apply writes_within_setitem_idx. lia.
    + intros _. apply IH; lia.
Qed.

Lemma writes_within_update_numeric_field index name pos v :
  position name = Ok pos ->
  writes_within (index + pos * 4) (index + pos * 4 + 4)
    (update_numeric_field index name v).
Proof.
  intros Hpos db buf Hd. unfold update_numeric_field, bind, lift. rewrite Hpos.
  destruct (as_bytes v) as [bs|e] eqn:Hbs; [|eauto].
  apply as_int_as_bytes in Hbs as [_ Hl].
  apply (writes_within_write_bytes _ _ bs (index + pos * 4) 0); [lia|lia|done].
Qed.

Lemma writes_within_update_entry index playcount update_playtime :
  writes_within (index + 68) (index + 72) (update_entry index playcount update_playtime).
Proof.
  unfold update_entry. apply writes_within_bind.
  - destruct playcount; by apply writes_within_reads_only.
  - intros _. destruct update_playtime; [|by apply writes_within_reads_only].
    apply writes_within_bind;
      [apply writes_within_reads_only, reads_only_get_numeric_field|]. intros pc.
    apply writes_within_bind;
      [apply writes_within_reads_only, reads_only_get_numeric_field|]. intros l.
    eapply writes_within_weaken;
      [| |apply (writes_within_update_numeric_field index "PLAYTIME" 17); reflexivity];
      lia.
Qed.

Lemma writes_within_import_entry lower lastfm done missing e cur :
  e !! "index" = Some (VInt (Z.of_nat cur)) ->
  writes_within (cur + 68) (cur + 72) (import_entry lower lastfm done missing e).
Proof.
  intros Hindex.
  assert (int_field e "index" = Ok (Z.of_nat cur)) as Hi
    by (unfold int_field; by rewrite Hindex).
  intros db buf Hd. unfold import_entry, bind, lift. rewrite Hi, Nat2Z.id.
  destruct (Track_from_rbdb_entry lower e) as [t|x]; [|eauto].
  destruct lastfm as [data|]; [|eauto].
  destruct (LastFM_exists data t) as [row|]; [|eauto].
  destruct (int_field e "PLAYCOUNT") as [pc|x]; [|eauto].
  destruct (count row >? pc)%Z.
  - rewrite update_entry_playcount_raises. simpl. eauto.
  - unfold ret. destruct (pc >? 0)%Z; [|eauto].
    destruct (int_field e "PLAYTIME") as [pt|x]; [|eauto].
    destruct (pt =? 0)%Z; [|eauto].
    destruct (writes_within_update_entry cur None true db buf Hd)
      as (buf' & Hd' & H').
    destruct (update_entry cur None true db) as [[[]|x] db1]; simpl in *; eauto.
Qed.

Lemma same_stores_import_step lower lastfm done missing db :
  same_stores db (import_step lower lastfm done missing db).2.
Proof.
  unfold import_step, bind.
  pose proof (same_stores_next_entry db) as H1.
  destruct (next_entry db) as [[e|x] db1]; simpl in *; [|done].
  eapply same_stores_trans; [exact H1|].
  apply (frames_import_entry lower lastfm done missing e db1).
Qed.

Lemma import_step_window lower lastfm done missing db buf :
  datas db !! IDX = Some buf ->
  exists buf',
    datas (import_step lower lastfm done missing db).2 !! IDX = Some buf'
    /\ forall i, ~ (cur_offset db + 68 <= i < cur_offset db + 72) -> buf' !! i = buf !! i.
Proof.
  intros Hd. unfold import_step, bind.
  destruct (next_entry_run db) as [[x ->]|(e & -> & Hindex)]; simpl; [eauto|].
  apply (writes_within_import_entry lower lastfm done missing e _ Hindex).
  done.
Qed.

(** The bytes of the index buffer that the import may change from the
    cursor [cur] on: the PLAYTIME field of each entry. *)
Lemma import_loop_frame lower lastfm fuel : forall nd nm db buf r db',
  datas db !! IDX = Some buf ->
  import_loop lower fuel lastfm nd nm db = Some (r, db') ->
  same_stores db db'
  /\ exists buf',
       datas db' !! IDX = Some buf'
       /\ forall i, (forall k, ~ (cur_offset db + 96 * k + 68 <= i
                                  < cur_offset db + 96 * k + 72)) ->
            buf' !! i = buf !! i.
Proof.
  induction fuel as [|fuel IH]; intros nd nm db buf r db' Hd; [done|].
  cbn [import_loop]. unfold EOF, bind, gets, ret. rewrite (data_ok db IDX buf Hd).
  case_bool_decide as Hend.
  { intros [= <- <-]. split; [apply same_stores_refl|]. eauto. }
  pose proof (import_step_progress lower lastfm nd nm db buf Hd) as Hprog.
  pose proof (same_stores_import_step lower lastfm nd nm db) as Hsame.
  destruct (import_step_window lower lastfm nd nm db buf Hd) as (buf1 & Hd1 & H1).
  destruct (import_step lower lastfm nd nm db) as [[[d m]|x] db1]; simpl in *.
  - destruct Hprog as [Hcur _]. intros Hloop.
    destruct (IH d m db1 buf1 r db' Hd1 Hloop) as (Hs & buf' & Hd' & H').
    split; [by eapply same_stores_trans|].
    exists buf'. split; [done|]. intros i Hi.
    rewrite H', H1; [done| |].
    + specialize (Hi 0). lia.
    + intros k. specialize (Hi (S k)). rewrite Hcur. lia.
  - intros [= <- <-]. split; [done|]. exists buf1. split; [done|].
    intros i Hi. apply H1. specialize (Hi 0). lia.
Qed.

Lemma slice_ext (b b' : list byte) i j :
  (forall k, i <= k < j -> b' !! k = b !! k) -> slice b' i j = slice b i j.
Proof.
  intros H. unfold slice. apply list_eq. intros k.
  destruct (decide (k < j - i)).
  - rewrite !lookup_take_lt, !lookup_drop by done. apply H. lia.
  - by rewrite !lookup_take_ge by lia.
Qed.

(** X19: what the import leaves alone.  On a loaded catalog
    [--import-counts] ends in an exception; by then it has written no file
    and changed no string table, and in the index buffer it has changed
    nothing but PLAYTIME fields of entries from the cursor on: the buffer
    keeps its length, and every other field of every entry, PLAYCOUNT
    among them, reads as before. *)
Theorem import_changes_playtime_only (lower : pystr -> pystr)
    (md5 : list byte -> pystr) (lastfm : option (gmap pystr lastfm_row))
    (db : RBDB) (w : World) (buf : list byte) :
  datas db !! IDX = Some buf ->
  exists e db',
    import_counts lower md5 lastfm db w = Some (Error e, db', w)
    /\ (forall j, j <> IDX -> datas db' !! j = datas db !! j)
    /\ exists buf',
         datas db' !! IDX = Some buf'
         /\ length buf' = length buf
         /\ (forall i, (forall k, ~ (cur_offset db + 96 * k + 68 <= i
                                     < cur_offset db + 96 * k + 72)) ->
               buf' !! i = buf !! i)
         /\ (forall k name pos, position name = Ok pos -> pos <> 17 ->
               field_of db' (cur_offset db + 96 * k) name
               = field_of db (cur_offset db + 96 * k) name).
Proof.
  intros Hd.
  destruct (import_counts_raises lower md5 lastfm db w) as (e & db' & Hrun).
  exists e, db'. split; [exact Hrun|].
  unfold import_counts in Hrun. rewrite Hd in Hrun.
  change (default [] (Some buf)) with buf in Hrun.
  destruct (import_loop lower (S (length buf)) lastfm 0 0 db)
    as [[r1 db1]|] eqn:Hloop; [|done].
  destruct (import_loop_frame lower lastfm _ _ _ _ _ _ _ Hd Hloop)
    as (Hs & buf' & Hd' & H').
  assert (db1 = db') as ->.
  { destruct r1 as [[d m]|x].
    - change (load_name "ok") with (@Error unit NameError) in Hrun.
      by injection Hrun as _ <-.
    - by injection Hrun as _ <-. }
  split; [apply Hs|].
  exists buf'. split; [done|].
  assert (length buf' = length buf) as Hlen.
  { pose proof (ss_len _ _ Hs) as Hl. rewrite Hd, Hd' in Hl. by injection Hl. }
  split; [done|]. split; [done|].
  intros k name pos Hpos Hne. unfold field_of.
  rewrite (get_numeric_field_run db' buf' _ name pos Hd' Hpos).
  rewrite (get_numeric_field_run db buf _ name pos Hd Hpos).
  cbn [fst]. do 2 f_equal. apply slice_ext. intros i Hi. apply H'.
  intros k'. apply position_bound in Hpos. lia.
Qed.


(** ** The search loop *)

Lemma entry_offsets_end cur len : len <= cur -> entry_offsets cur len = [].
Proof.
  intros H. unfold entry_offsets.
  replace (len - cur + 95) with 95 by lia. done.
Qed.

Lemma entry_offsets_cons cur len :
  cur < len -> entry_offsets cur len = cur :: entry_offsets (cur + 96) len.
Proof.
  intros H. unfold entry_offsets.
  assert ((len - cur + 95) / 96 = S ((len - (cur + 96) + 95) / 96)) as ->.
  { destruct (decide (cur + 96 <= len)).
    - replace (len - cur + 95) with (1 * 96 + (len - (cur + 96) + 95)) by lia.
      by rewrite Nat.div_add_l.
    - replace (len - (cur + 96) + 95) with 95 by lia.
      change (95 / 96) with 0. symmetry.
      apply (Nat.div_unique _ 96 1 (len - cur - 1)); lia. }
  cbn [seq fmap list_fmap]. f_equal; [lia|].
  rewrite <- fmap_S_seq, <- list_fmap_compose.
  apply list_fmap_ext. intros _ k _. simpl. lia.
Qed.

Lemma get_string_cursor tagidx offset c db :
  _get_string_at_offset tagidx offset (set_cur_offset c db)
  = ((_get_string_at_offset tagidx offset db).1, set_cur_offset c db).
Proof.
  unfold _get_string_at_offset, bind, data. simpl.
  destruct (getitem (datas db) tagidx); [|done].
  by destruct (utf8_decode _).
Qed.

Lemma entry_loop_cursor entry_offset items c db : forall values,
  entry_loop entry_offset items values (set_cur_offset c db)
  = ((entry_loop entry_offset items values db).1, set_cur_offset c db).
Proof.
  induction items as [|[name pos] items IH]; intros values; [done|].
  cbn [entry_loop]. unfold bind, data. cbn [datas set_cur_offset].
  destruct (getitem (datas db) IDX) as [d|x]; [|done].
  case_bool_decide; [|apply IH].
  rewrite get_string_cursor.
  pose proof (reads_only_get_string (TAG pos) (Z.to_nat (as_int
                (slice d (entry_offset + pos * 4) (entry_offset + pos * 4 + 4)))) db) as Hro.
  destruct (_get_string_at_offset _ _ db) as [[s|x] db1]; cbn [fst snd] in *;
    subst db1; [|done].
  apply IH.
Qed.

Lemma entry_cursor entry_offset c db :
  entry entry_offset (set_cur_offset c db)
  = ((entry entry_offset db).1, set_cur_offset c db).
Proof. apply entry_loop_cursor. Qed.

Lemma next_entry_at c db :
  next_entry (set_cur_offset c db)
  = match (entry c db).1 with
    | Ok e => (Ok e, set_cur_offset (c + 96) db)
    | Error x => (Error x, set_cur_offset c db)
    end.
Proof.
  rewrite next_entry_unfold.
  change (cur_offset (set_cur_offset c db)) with c.
  rewrite entry_cursor.
  destruct (entry c db).1 as [e|x]; reflexivity.
Qed.

Lemma find_loop_S lower fuel find printed db :
  find_loop lower (S fuel) find printed db
  = match EOF db with
    | (Error e, db') => Some (Error e, db')
    | (Ok true, db') => Some (Ok printed, db')
    | (Ok false, db') =>
        match find_step lower find printed db' with
        | (Error e, db'') => Some (Error e, db'')
        | (Ok printed', db'') => find_loop lower fuel find printed' db''
        end
    end.
Proof. reflexivity. Qed.

Lemma EOF_at c db buf :
  datas db !! IDX = Some buf ->
  EOF (set_cur_offset c db) = (Ok (bool_decide (length buf <= c)), set_cur_offset c db).
Proof.
  intros Hd. unfold EOF, bind, gets, ret.
  by rewrite (data_ok (set_cur_offset c db) IDX buf Hd).
Qed.

Lemma find_loop_spec lower find db buf :
  datas db !! IDX = Some buf ->
  forall fuel c printed,
    length buf <= c + 96 * fuel ->
    exists c',
      find_loop lower (S fuel) find printed (set_cur_offset c db)
      = Some (match collect (track_at lower db <$> entry_offsets c (length buf)) with
              | Ok ts => Ok (printed ++ filter (fun t => str_in (lower find) (key t) = true) ts)
              | Error x => Error x
              end, set_cur_offset c' db).
Proof.
  intros Hd. induction fuel as [|fuel IH]; intros c printed Hlen;
    rewrite find_loop_S, (EOF_at c db buf Hd); case_bool_decide as Hend.
  - rewrite entry_offsets_end by done. simpl. rewrite app_nil_r. eauto.
  - lia.
  - rewrite entry_offsets_end by done. simpl. rewrite app_nil_r. eauto.
  - rewrite entry_offsets_cons by lia. rewrite fmap_cons. cbn [collect].
    unfold find_step, bind, lift. rewrite next_entry_at.
    unfold track_at at 1.
    destruct (entry c db).1 as [e|x]; [|eauto].
    destruct (Track_from_rbdb_entry lower e) as [t|x]; [|eauto].
    destruct (str_in (lower find) (key t)) eqn:Hin; unfold ret.
    + destruct (IH (c + 96) (printed ++ [t])) as [c' ->]; [lia|].
      exists c'. destruct (collect _); [|done].
      rewrite filter_cons_True by done. by rewrite <- app_assoc.
    + destruct (IH (c + 96) printed) as [c' ->]; [lia|].
      exists c'. destruct (collect _); [|done].
      rewrite filter_cons_False by (by rewrite Hin). done.
Qed.

(** X20: the search of [--find].  The loop ends, it visits the entries at
    the offsets of the cursor plus multiples of 96 below the length of the
    index buffer, a last incomplete record among them, and it prints, in
    that order, the tracks whose key holds the lowercased search text; it
    stops at the first entry that does not decode.  The loop moves the
    cursor and changes nothing else. *)
Theorem find_prints_matching_tracks (lower : pystr -> pystr) (find : pystr)
    (db : RBDB) (buf : list byte) :
  datas db !! IDX = Some buf ->
  exists c',
    find_tracks lower find db
    = Some (match collect (track_at lower db
                             <$> entry_offsets (cur_offset db) (length buf)) with
            | Ok ts => Ok (filter (fun t => str_in (lower find) (key t) = true) ts)
            | Error x => Error x
            end, set_cur_offset c' db).
Proof.
  intros Hd. unfold find_tracks. rewrite Hd.
  change (default [] (Some buf)) with buf.
  destruct (find_loop_spec lower find db buf Hd (length buf) (cur_offset db) [])
    as [c' H]; [lia|].
  exists c'. replace (set_cur_offset (cur_offset db) db) with db in H
    by (by destruct db).
  exact H.
Qed.

(** ** Entries and the string tables *)

Lemma entry_loop_strings db buf entry_offset items :
  datas db !! IDX = Some buf ->
  NoDup items.*1 ->
  forall values,
    match (entry_loop entry_offset items values db).1 with
    | Ok vs =>
        forall name pos, (name, pos) ∈ items -> TAG pos ∈ file_indexes ->
          exists s, field_string db buf entry_offset pos = Ok s
                    /\ vs !! name = Some (VStr s)
    | Error e =>
        exists name pos, (name, pos) ∈ items /\ TAG pos ∈ file_indexes
                         /\ field_string db buf entry_offset pos = Error e
    end.
Proof.
  intros Hidx. induction items as [|[name pos] items IH]; intros Hnd values.
  - simpl. intros name pos H. by apply elem_of_nil in H.
  - rewrite fmap_cons in Hnd. apply NoDup_cons in Hnd as [Hname Hnd].
    cbn [entry_loop]. unfold bind at 1. rewrite (data_ok db IDX buf Hidx).
    case_bool_decide as Htag.
    + unfold bind.
      pose proof (reads_only_get_string (TAG pos) (Z.to_nat (as_int
        (slice buf (entry_offset + pos * 4) (entry_offset + pos * 4 + 4)))) db) as Hro.
      assert (field_string db buf entry_offset pos
              = (_get_string_at_offset (TAG pos) (Z.to_nat (as_int
                   (slice buf (entry_offset + pos * 4) (entry_offset + pos * 4 + 4)))) db).1)
        as Hfs by reflexivity.
      destruct (_get_string_at_offset _ _ db) as [[s|x] db1];
        cbn [fst snd] in Hro, Hfs; subst db1.
      * specialize (IH Hnd (<[name := VStr s]>
          (<[name := VInt (as_int (slice buf (entry_offset + pos * 4)
                                             (entry_offset + pos * 4 + 4)))]> values))).
        destruct (entry_loop entry_offset items _ db) as [[vs|e] db'] eqn:Hrun;
          cbn [fst] in *.
        -- intros n p [[= -> ->]|Hnp]%elem_of_cons Hp; [|by apply IH].
           exists s. split; [done|].
           rewrite (entry_loop_other _ _ _ _ _ _ Hrun name Hname).
           apply lookup_insert_eq.
        -- destruct IH as (n & p & Hnp & Hp & Hs).
           exists n, p. split; [by right|done].
      * cbn [fst]. exists name, pos. split; [by left|done].
    + specialize (IH Hnd (<[name := VInt (as_int (slice buf (entry_offset + pos * 4)
                                             (entry_offset + pos * 4 + 4)))]> values)).
      destruct (entry_loop entry_offset items _ db) as [[vs|e] db'] eqn:Hrun;
        cbn [fst] in *.
      * intros n p [[= -> ->]|Hnp]%elem_of_cons Hp; [done|by apply IH].
      * destruct IH as (n & p & Hnp & Hp & Hs).
        exists n, p. split; [by right|done].
Qed.

Lemma string_positions :
  ("ARTIST", 0) ∈ positions /\ ("ALBUM", 1) ∈ positions /\ ("TITLE", 3) ∈ positions
  /\ TAG 0 ∈ file_indexes /\ TAG 1 ∈ file_indexes /\ TAG 3 ∈ file_indexes.
Proof.
  repeat split; apply (bool_decide_unpack _); vm_compute; exact I.
Qed.

(** X21: [entry] resolves the nine string fields through their tables.
    When it returns, each of these fields holds the string that
    [_get_string_at_offset] reads in the table of the field at the offset
    stored in the entry, and [Track.from_rbdb_entry] builds the track of
    the strings of ARTIST, ALBUM and TITLE; when it raises, the exception
    is the one of the lookup of one of these strings. *)
Theorem entry_resolves_strings (db : RBDB) (buf : list byte) (entry_offset : nat) :
  datas db !! IDX = Some buf ->
  match (entry entry_offset db).1 with
  | Ok values =>
      (forall name pos, (name, pos) ∈ positions -> TAG pos ∈ file_indexes ->
         exists s, field_string db buf entry_offset pos = Ok s
                   /\ values !! name = Some (VStr s))
      /\ (forall lower, exists a b t,
            field_string db buf entry_offset 0 = Ok a
            /\ field_string db buf entry_offset 1 = Ok b
            /\ field_string db buf entry_offset 3 = Ok t
            /\ Track_from_rbdb_entry lower values = Ok (Track_init lower a b t))
  | Error e =>
      exists name pos, (name, pos) ∈ positions /\ TAG pos ∈ file_indexes
                       /\ field_string db buf entry_offset pos = Error e
  end.
Proof.
  intros Hidx. unfold entry.
  pose proof (entry_loop_strings db buf entry_offset positions Hidx positions_NoDup
                {[ "index" := VInt (Z.of_nat entry_offset) ]}) as H.
  destruct (entry_loop entry_offset positions _ db).1 as [values|e]; [|exact H].
  split; [exact H|]. intros lower.
  destruct string_positions as (Ha & Hb & Ht & Ta & Tb & Tt).
  destruct (H _ _ Ha Ta) as (a & Hfa & Hva).
  destruct (H _ _ Hb Tb) as (b & Hfb & Hvb).
  destruct (H _ _ Ht Tt) as (t & Hft & Hvt).
  exists a, b, t. unfold Track_from_rbdb_entry. by rewrite Hva, Hvb, Hvt.
Qed.

(** ** More witnesses on the example databases *)

Lemma get_numeric_field_after_update_witness :
  datas (loaded (one_track_world x05)) !! IDX
    = Some (example_header ++ example_entry xc8 x05)
  /\ position "PLAYTIME" = Ok 17
  /\ 24 + 17 * 4 + 4 <= length (example_header ++ example_entry xc8 x05)
  /\ (0 <= 1000 < 2 ^ 32)%Z
  /\ position "PLAYCOUNT" = Ok 15
  /\ (24 + 15 * 4 + 4 <= 24 + 17 * 4 \/ 24 + 17 * 4 + 4 <= 24 + 15 * 4)
  /\ (get_numeric_field 24 "PLAYTIME"
        (update_numeric_field 24 "PLAYTIME" 1000 (loaded (one_track_world x05))).2).1
     = Ok 1000%Z
  /\ (get_numeric_field 24 "PLAYCOUNT"
        (update_numeric_field 24 "PLAYTIME" 1000 (loaded (one_track_world x05))).2).1
     = (get_numeric_field 24 "PLAYCOUNT" (loaded (one_track_world x05))).1.
Proof.
  assert (H1 : datas (loaded (one_track_world x05)) !! IDX
               = Some (example_header ++ example_entry xc8 x05))
    by (vm_compute; reflexivity).
  assert (H2 : position "PLAYTIME" = Ok 17) by (vm_compute; reflexivity).
  assert (H3 : 24 + 17 * 4 + 4 <= length (example_header ++ example_entry xc8 x05))
    by (apply Nat.leb_le; vm_compute; reflexivity).
  assert (H4 : (0 <= 1000 < 2 ^ 32)%Z) by (split; [discriminate | reflexivity]).
  assert (H5 : position "PLAYCOUNT" = Ok 15) by (vm_compute; reflexivity).
  assert (H6 : 24 + 15 * 4 + 4 <= 24 + 17 * 4 \/ 24 + 17 * 4 + 4 <= 24 + 15 * 4)
    by (left; apply Nat.leb_le; vm_compute; reflexivity).
  split; [exact H1|]. split; [exact H2|]. split; [exact H3|]. split; [exact H4|].
  split; [exact H5|]. split; [exact H6|].
  exact (get_numeric_field_after_update _ _ 24 "PLAYTIME" 17 1000%Z
           24 "PLAYCOUNT" 15 H1 H2 H3 H4 H5 H6).
Defined.

Lemma update_numeric_field_failures_witness :
  datas (loaded truncated_world) !! IDX = Some truncated_index
  /\ update_numeric_field 24 "GENRE" 513 (loaded truncated_world)
     = (Error IndexError,
        set_datas (<[IDX := list_inserts (24 + 2 * 4)
                              (take (length truncated_index - (24 + 2 * 4))
                                 [x01; x02; x00; x00]) truncated_index]>
                     (datas (loaded truncated_world))) (loaded truncated_world)).
Proof.
  assert (H1 : datas (loaded truncated_world) !! IDX = Some truncated_index)
    by (vm_compute; reflexivity).
  split; [exact H1|].
  destruct (update_numeric_field_failures (loaded truncated_world) truncated_index
              24 "GENRE" 513%Z H1) as (_ & _ & H).
  apply (H 2 [x01; x02; x00; x00]).
  - vm_compute; reflexivity.
  - vm_compute; reflexivity.
  - apply Nat.ltb_lt. vm_compute; reflexivity.
Defined.

Lemma update_entry_recomputes_playtime_witness :
  datas (loaded (one_track_world x05)) !! IDX
    = Some (example_header ++ example_entry xc8 x05)
  /\ 24 + 72 <= length (example_header ++ example_entry xc8 x05)
  /\ field_of (update_entry 24 None true (loaded (one_track_world x05))).2 24 "PLAYTIME"
     = Ok (5 * 200)%Z.
Proof.
  assert (H1 : datas (loaded (one_track_world x05)) !! IDX
               = Some (example_header ++ example_entry xc8 x05))
    by (vm_compute; reflexivity).
  assert (H2 : 24 + 72 <= length (example_header ++ example_entry xc8 x05))
    by (apply Nat.leb_le; vm_compute; reflexivity).
  split; [exact H1|]. split; [exact H2|].
  destruct (update_entry_recomputes_playtime _ _ 24 H1 H2) as [H _].
  destruct H as (_ & H & _); [vm_compute; reflexivity|].
  rewrite H. vm_compute; reflexivity.
Defined.

Lemma get_string_of_record_witness :
  datas (loaded (one_track_world x05)) !! TAG 0
    = Some ([] ++ [x01; x00; x00; x00] ++ [x00; x00; x00; x00] ++ ([x61] ++ []) ++ [])
  /\ as_bytes (Z.of_nat (length ([x61] ++ []))) = Ok [x01; x00; x00; x00]
  /\ length [x00; x00; x00; x00] = 4
  /\ ascii_text [x61]
  /\ (@nil byte = [] \/ (exists pad', [] = x00 :: pad'))
  /\ _get_string_at_offset (TAG 0) 0 (loaded (one_track_world x05))
     = (Ok (py "a"), loaded (one_track_world x05)).
Proof.
  assert (H1 : datas (loaded (one_track_world x05)) !! TAG 0
    = Some ([] ++ [x01; x00; x00; x00] ++ [x00; x00; x00; x00] ++ ([x61] ++ []) ++ []))
    by (vm_compute; reflexivity).
  assert (H2 : as_bytes (Z.of_nat (length ([x61] ++ []))) = Ok [x01; x00; x00; x00])
    by (vm_compute; reflexivity).
  assert (H3 : length [x00; x00; x00; x00] = 4) by reflexivity.
  assert (H4 : ascii_text [x61]).
  { constructor; [|constructor]. split; reflexivity. }
  assert (H5 : @nil byte = [] \/ (exists pad', [] = x00 :: pad')) by (left; reflexivity).
  split; [exact H1|]. split; [exact H2|]. split; [exact H3|]. split; [exact H4|].
  split; [exact H5|].
  exact (get_string_of_record _ (TAG 0) [] _ _ [x61] [] [] H1 H2 H3 H4 H5).
Defined.

Lemma get_string_past_end_witness :
  datas (loaded (one_track_world x05)) !! TAG 1 = Some []
  /\ length (@nil byte) <= 0 + 8
  /\ _get_string_at_offset (TAG 1) 0 (loaded (one_track_world x05))
     = (Ok [], loaded (one_track_world x05)).
Proof.
  assert (H1 : datas (loaded (one_track_world x05)) !! TAG 1 = Some [])
    by (vm_compute; reflexivity).
  assert (H2 : length (@nil byte) <= 0 + 8) by (apply Nat.leb_le; reflexivity).
  split; [exact H1|]. split; [exact H2|].
  exact (get_string_past_end _ (TAG 1) [] 0 H1 H2).
Defined.

Lemma RBDB_init_reads_header_witness :
  RBDB_init plain_digest example_root
    (example_world ([x0d; x48; x43; x54] ++ [x78; x00; x00; x00] ++ [x01; x00; x00; x00]
                    ++ [x07; x00; x00; x00] ++ [x02; x01; x00; x00]
                    ++ [x00; x00; x00; x00] ++ example_entry xc8 x05) artist_table)
  = Ok (loaded
    (example_world ([x0d; x48; x43; x54] ++ [x78; x00; x00; x00] ++ [x01; x00; x00; x00]
                    ++ [x07; x00; x00; x00] ++ [x02; x01; x00; x00]
                    ++ [x00; x00; x00; x00] ++ example_entry xc8 x05) artist_table))
  /\ dbver (loaded
    (example_world ([x0d; x48; x43; x54] ++ [x78; x00; x00; x00] ++ [x01; x00; x00; x00]
                    ++ [x07; x00; x00; x00] ++ [x02; x01; x00; x00]
                    ++ [x00; x00; x00; x00] ++ example_entry xc8 x05) artist_table))
     = 1413695501%Z
  /\ dbcommit (loaded
    (example_world ([x0d; x48; x43; x54] ++ [x78; x00; x00; x00] ++ [x01; x00; x00; x00]
                    ++ [x07; x00; x00; x00] ++ [x02; x01; x00; x00]
                    ++ [x00; x00; x00; x00] ++ example_entry xc8 x05) artist_table))
     = 258%Z.
Proof.
  set (w := example_world _ artist_table).
  assert (H1 : RBDB_init plain_digest example_root w = Ok (loaded w))
    by (vm_compute; reflexivity).
  split; [exact H1|].
  assert (H : dbver (loaded w) = 1413695501%Z /\ dbsize (loaded w) = 120%Z
              /\ dbcount (loaded w) = 1%Z /\ dbserial (loaded w) = 7%Z
              /\ dbcommit (loaded w) = 258%Z /\ dbdirty (loaded w) = 0%Z).
  { apply (RBDB_init_reads_header plain_digest example_root w (loaded w)
             1413695501 120 1 7 258 0
             [x0d; x48; x43; x54] [x78; x00; x00; x00] [x01; x00; x00; x00]
             [x07; x00; x00; x00] [x02; x01; x00; x00] [x00; x00; x00; x00]
             (example_entry xc8 x05) H1); vm_compute; reflexivity. }
  destruct H as (Hv & _ & _ & _ & Hc & _).
  split; [exact Hv | exact Hc].
Defined.

Lemma commit_twice_writes_twice_witness :
  RBDB_init plain_digest example_root (one_track_world x05)
    = Ok (loaded (one_track_world x05))
  /\ paths (update_entry 24 None true (loaded (one_track_world x05))).2
     = paths (loaded (one_track_world x05))
  /\ checksums (update_entry 24 None true (loaded (one_track_world x05))).2
     = checksums (loaded (one_track_world x05))
  /\ (forall i, i ∈ file_indexes ->
        is_Some (datas (update_entry 24 None true (loaded (one_track_world x05))).2 !! i))
  /\ exists w2 w3,
       commit plain_digest (update_entry 24 None true (loaded (one_track_world x05))).2
         (one_track_world x05) = (Ok tt, w2)
       /\ commit plain_digest (update_entry 24 None true (loaded (one_track_world x05))).2
            w2 = (Ok tt, w3)
       /\ files w3 = files w2
       /\ written w3 = written w2 ++ [database_path example_root IDX].
Proof.
  assert (H1 : RBDB_init plain_digest example_root (one_track_world x05)
               = Ok (loaded (one_track_world x05))) by (vm_compute; reflexivity).
  assert (H2 : paths (update_entry 24 None true (loaded (one_track_world x05))).2
               = paths (loaded (one_track_world x05))) by (vm_compute; reflexivity).
  assert (H3 : checksums (update_entry 24 None true (loaded (one_track_world x05))).2
               = checksums (loaded (one_track_world x05))) by (vm_compute; reflexivity).
  assert (H4 : forall i, i ∈ file_indexes ->
            is_Some (datas (update_entry 24 None true (loaded (one_track_world x05))).2 !! i))
    by all_stores.
  destruct (commit_twice_writes_twice plain_digest example_root _ _ _
              (one_track_world x05) H1 H2 H3 H4) as (w2 & w3 & Hrun2 & Hrun3 & Hf & Hw).
  split; [exact H1|]. split; [exact H2|]. split; [exact H3|]. split; [exact H4|].
  exists w2, w3. split; [exact Hrun2|]. split; [exact Hrun3|]. split; [exact Hf|].
  rewrite Hw. apply (f_equal (fun l => written w2 ++ l)). vm_compute; reflexivity.
Defined.

Lemma commit_after_calls_writes_index_only_witness :
  RBDB_init plain_digest example_root (one_track_world x05)
    = Ok (loaded (one_track_world x05))
  /\ exists w2,
       commit plain_digest
         (run_ops [OpNextEntry; OpUpdateEntry 24 None true; OpUpdateEntry 24 (Some 7%Z) false]
            (loaded (one_track_world x05)))
         (one_track_world x05) = (Ok tt, w2)
       /\ (written w2 = written (one_track_world x05)
           \/ written w2 = written (one_track_world x05) ++ [database_path example_root IDX])
       /\ (forall p, p <> database_path example_root IDX ->
             files w2 !! p = files (one_track_world x05) !! p).
Proof.
  assert (H1 : RBDB_init plain_digest example_root (one_track_world x05)
               = Ok (loaded (one_track_world x05))) by (vm_compute; reflexivity).
  split; [exact H1|].
  exact (commit_after_calls_writes_index_only plain_digest example_root _ _
           [OpNextEntry; OpUpdateEntry 24 None true; OpUpdateEntry 24 (Some 7%Z) false]
           (one_track_world x05) H1).
Defined.

Lemma result_Ok_default {A} (r : result A) (d : A) :
  match r with Ok _ => true | Error _ => false end = true ->
  r = Ok (match r with Ok a => a | Error _ => d end).
Proof. destruct r; [reflexivity | discriminate]. Qed.

Lemma import_step_without_match_witness :
  (next_entry (loaded (one_track_world x00))).1 = Ok (first_entry (one_track_world x00))
  /\ Track_from_rbdb_entry latin1_lower (first_entry (one_track_world x00))
     = Ok (Track_init latin1_lower (py "a") [] [])
  /\ LastFM_exists (LastFM_parse latin1_lower [(py "B", [], [])])
       (Track_init latin1_lower (py "a") [] []) = None
  /\ import_step latin1_lower (Some (LastFM_parse latin1_lower [(py "B", [], [])]))
       0 0 (loaded (one_track_world x00))
     = (Ok (0, 0 + 1)%Z,
        set_cur_offset (cur_offset (loaded (one_track_world x00)) + 96)
          (loaded (one_track_world x00))).
Proof.
  assert (H1 : (next_entry (loaded (one_track_world x00))).1
               = Ok (first_entry (one_track_world x00)))
    by (apply (result_Ok_default _ ∅); vm_compute; reflexivity).
  assert (H2 : Track_from_rbdb_entry latin1_lower (first_entry (one_track_world x00))
               = Ok (Track_init latin1_lower (py "a") [] []))
    by (vm_compute; reflexivity).
  assert (H3 : LastFM_exists (LastFM_parse latin1_lower [(py "B", [], [])])
                 (Track_init latin1_lower (py "a") [] []) = None)
    by (vm_compute; reflexivity).
  split; [exact H1|]. split; [exact H2|]. split; [exact H3|].
  exact (import_step_without_match latin1_lower _ 0 0 _ _ _ H1 H2 H3).
Defined.

Lemma import_step_with_match_witness :
  (next_entry (loaded (one_track_world x05))).1 = Ok (first_entry (one_track_world x05))
  /\ Track_from_rbdb_entry latin1_lower (first_entry (one_track_world x05))
     = Ok (Track_init latin1_lower (py "a") [] [])
  /\ LastFM_exists one_play_ledger (Track_init latin1_lower (py "a") [] [])
     = Some (mk_row 1 (Track_init latin1_lower (py "a") [] []))
  /\ int_field (first_entry (one_track_world x05)) "PLAYCOUNT" = Ok 5%Z
  /\ int_field (first_entry (one_track_world x05)) "PLAYTIME" = Ok 0%Z
  /\ (import_step latin1_lower (Some one_play_ledger) 0 0
        (loaded (one_track_world x05))).1 = Ok (1, 0)%Z.
Proof.
  assert (H1 : (next_entry (loaded (one_track_world x05))).1
               = Ok (first_entry (one_track_world x05)))
    by (apply (result_Ok_default _ ∅); vm_compute; reflexivity).
  assert (H2 : Track_from_rbdb_entry latin1_lower (first_entry (one_track_world x05))
               = Ok (Track_init latin1_lower (py "a") [] []))
    by (vm_compute; reflexivity).
  assert (H3 : LastFM_exists one_play_ledger (Track_init latin1_lower (py "a") [] [])
               = Some (mk_row 1 (Track_init latin1_lower (py "a") [] [])))
    by (vm_compute; reflexivity).
  assert (H4 : int_field (first_entry (one_track_world x05)) "PLAYCOUNT" = Ok 5%Z)
    by (vm_compute; reflexivity).
  assert (H5 : int_field (first_entry (one_track_world x05)) "PLAYTIME" = Ok 0%Z)
    by (vm_compute; reflexivity).
  split; [exact H1|]. split; [exact H2|]. split; [exact H3|]. split; [exact H4|].
  split; [exact H5|].
  destruct (import_step_with_match latin1_lower one_play_ledger 0 0 _ _ _ _ 5 0
              H1 H2 H3 H4 H5) as (_ & _ & H).
  rewrite H.
  - vm_compute; reflexivity.
  - discriminate.
  - reflexivity.
  - reflexivity.
Defined.

Lemma import_changes_playtime_only_witness :
  datas (loaded (one_track_world x05)) !! IDX
    = Some (example_header ++ example_entry xc8 x05)
  /\ exists e db',
       import_counts latin1_lower plain_digest (Some one_play_ledger)
         (loaded (one_track_world x05)) (one_track_world x05)
       = Some (Error e, db', one_track_world x05)
       /\ field_of db' 24 "PLAYCOUNT" = Ok 5%Z.
Proof.
  assert (H1 : datas (loaded (one_track_world x05)) !! IDX
               = Some (example_header ++ example_entry xc8 x05))
    by (vm_compute; reflexivity).
  split; [exact H1|].
  destruct (import_changes_playtime_only latin1_lower plain_digest (Some one_play_ledger)
              _ (one_track_world x05) _ H1)
    as (e & db' & Hrun & _ & buf' & _ & _ & _ & Hfields).
  exists e, db'. split; [exact Hrun|].
  change 24 with (cur_offset (loaded (one_track_world x05)) + 96 * 0) at 1.
  rewrite (Hfields 0 "PLAYCOUNT" 15); [vm_compute; reflexivity|reflexivity|discriminate].
Defined.

Lemma find_prints_matching_tracks_witness :
  datas (loaded (one_track_world x05)) !! IDX
    = Some (example_header ++ example_entry xc8 x05)
  /\ exists c',
       find_tracks latin1_lower (py "A") (loaded (one_track_world x05))
       = Some (Ok [Track_init latin1_lower (py "a") [] []],
               set_cur_offset c' (loaded (one_track_world x05))).
Proof.
  assert (H1 : datas (loaded (one_track_world x05)) !! IDX
               = Some (example_header ++ example_entry xc8 x05))
    by (vm_compute; reflexivity).
  split; [exact H1|].
  destruct (find_prints_matching_tracks latin1_lower (py "A") _ _ H1) as [c' H].
  exists c'. rewrite H.
  apply (f_equal (fun r => Some (r, set_cur_offset c' (loaded (one_track_world x05))))).
  vm_compute; reflexivity.
Defined.

Lemma entry_resolves_strings_witness :
  datas (loaded (one_track_world x05)) !! IDX
    = Some (example_header ++ example_entry xc8 x05)
  /\ field_string (loaded (one_track_world x05))
       (example_header ++ example_entry xc8 x05) 24 0 = Ok (py "a")
  /\ match (entry 24 (loaded (one_track_world x05))).1 with
     | Ok values => values !! "ARTIST" = Some (VStr (py "a"))
     | Error _ => False
     end.
Proof.
  assert (H1 : datas (loaded (one_track_world x05)) !! IDX
               = Some (example_header ++ example_entry xc8 x05))
    by (vm_compute; reflexivity).
  assert (Hf : field_string (loaded (one_track_world x05))
                 (example_header ++ example_entry xc8 x05) 24 0 = Ok (py "a"))
    by (vm_compute; reflexivity).
  assert (Hok : match (entry 24 (loaded (one_track_world x05))).1 with
                | Ok _ => true
                | Error _ => false
                end = true) by (vm_compute; reflexivity).
  split; [exact H1|]. split; [exact Hf|].
  pose proof (entry_resolves_strings _ _ 24 H1) as H.
  destruct (entry 24 (loaded (one_track_world x05))).1 as [values|e];
    [|discriminate Hok].
  destruct H as [H _].
  destruct (H "ARTIST" 0) as (s & Hs & Hv).
  - apply (bool_decide_unpack _). vm_compute. exact I.
  - apply (bool_decide_unpack _). vm_compute. exact I.
  - rewrite Hf in Hs. injection Hs as <-. exact Hv.
Defined.

(** ** C1: the play counts after the merge *)














